(** * DBLP crawler and title analytics: a shallow embedding

    The development follows the two TypeScript modules of the repository

    - [services/dblpService.ts]: record normalisation ([cleanText],
      [getVenueType], [parseAuthors]), the retrying page fetcher
      ([fetchWithRetry]) and the paginated crawl ([fetchDBLPData] with its
      inner [fetchBatch] and the sliding window of in-flight requests);
    - the analytics module: [tokenize], [extractKeywords],
      [generateTrends], [generateCorrelationHeatmap] and
      [findSimilarArticles];

    and, from their callers, the list handlers of [App.tsx] and the
    trend chart of [StatsDashboard] ([components/ArticleCard.tsx]).

    Conventions.  A JavaScript string is a [string] whose characters stand
    for code units below 256.  A JavaScript number that the code only uses
    as an integer is a [Z]; where the code can produce [NaN] (the result of
    [parseInt]) the type is [option Z] with [None] for [NaN].  An optional
    property of a JSON object is an [option]; the JavaScript test
    [if (x)] on such a property is [truthy]. *)

From Stdlib Require Import ZArith List String Ascii Bool Lia Reals Lra.
From stdpp Require Import base list strings pretty sorting gmap.

Local Open Scope string_scope.
Local Open Scope list_scope.

(** ** JavaScript values used by both modules *)

Module Js.

(** [if (s)] for a property that is a string when present. *)
Definition truthy (o : option string) : bool :=
  match o with
  | Some s => negb (String.eqb s "")
  | None => false
  end.

(** [a || d] where [a] is an optional string and [d] a string. *)
Definition or_else (o : option string) (d : string) : string :=
  match o with
  | Some s => if String.eqb s "" then d else s
  | None => d
  end.

(** [a || b] where both sides are optional strings. *)
Definition or_opt (o1 o2 : option string) : option string :=
  if truthy o1 then o1 else o2.

(** [s.startsWith(p)]. *)
Definition startsWith (s p : string) : bool := String.prefix p s.

Definition code (c : ascii) : N := N_of_ascii c.

(** White space of [\s], of [trim] and of [parseInt], among the code
    units below 256: TAB, LF, VT, FF, CR, SPACE and NBSP. *)
Definition is_space (c : ascii) : bool :=
  let n := code c in
  ((9 <=? n) && (n <=? 13) || (n =? 32) || (n =? 160))%N.

Definition is_digit (c : ascii) : bool :=
  let n := code c in ((48 <=? n) && (n <=? 57))%N.

(** [\w] is [A-Za-z0-9_]. *)
Definition is_word (c : ascii) : bool :=
  let n := code c in
  ((65 <=? n) && (n <=? 90) || (97 <=? n) && (n <=? 122)
   || is_digit c || (n =? 95))%N.

(** [toLowerCase] on one code unit: A to Z, and the Latin-1 capitals
    192 to 222 without the multiplication sign 215. *)
Definition lower (c : ascii) : ascii :=
  let n := code c in
  if ((65 <=? n) && (n <=? 90)
      || (192 <=? n) && (n <=? 222) && negb (n =? 215))%N
  then ascii_of_N (n + 32) else c.

Fixpoint toLowerCase (s : string) : string :=
  match s with
  | EmptyString => EmptyString
  | String c r => String (lower c) (toLowerCase r)
  end.

Fixpoint filter_chars (p : ascii -> bool) (s : string) : string :=
  match s with
  | EmptyString => EmptyString
  | String c r => if p c then String c (filter_chars p r) else filter_chars p r
  end.

Fixpoint all_chars (p : ascii -> bool) (s : string) : bool :=
  match s with
  | EmptyString => true
  | String c r => p c && all_chars p r
  end.

Fixpoint drop_while (p : ascii -> bool) (s : string) : string :=
  match s with
  | EmptyString => EmptyString
  | String c r => if p c then drop_while p r else s
  end.

(** The value of a run of leading decimal digits, [None] when the run is
    empty. *)
Fixpoint digits (s : string) (acc : option Z) : option Z :=
  match s with
  | EmptyString => acc
  | String c r =>
      if is_digit c
      then digits r (Some (10 * default 0%Z acc + (Z.of_N (code c) - 48))%Z)
      else acc
  end.

(** [parseInt(s, 10)]: leading white space is skipped, one sign is
    accepted, the longest run of digits is read and the rest is ignored;
    [None] is [NaN].  (Integers beyond 2^53, which JavaScript rounds, are
    kept exact.) *)
Definition parseInt (s : string) : option Z :=
  match drop_while is_space s with
  | String "-" r => Z.opp <$> digits r None
  | String "+" r => digits r None
  | r => digits r None
  end.

(** [a >= b] and [a <= b] on numbers: false as soon as one side is
    [NaN]. *)
Definition geb (a b : option Z) : bool :=
  match a, b with
  | Some x, Some y => (y <=? x)%Z
  | _, _ => false
  end.

Definition leb (a b : option Z) : bool := geb b a.

(** [a < b] on numbers. *)
Definition ltb (a b : option Z) : bool :=
  match a, b with
  | Some x, Some y => (x <? y)%Z
  | _, _ => false
  end.

(** [Math.min(a, b)]: [NaN] as soon as one argument is. *)
Definition min (a b : option Z) : option Z :=
  match a, b with
  | Some x, Some y => Some (Z.min x y)
  | _, _ => None
  end.

(** [l.slice(0, e)] for an integer [e]: a negative end counts from the
    end of the array. *)
Definition slice0 {A} (l : list A) (e : Z) : list A :=
  if (e <? 0)%Z
  then firstn (Z.to_nat (Z.of_nat (length l) + e)) l
  else firstn (Z.to_nat e) l.

(** [l.sort(cmp)] for a consistent comparator, as a stable insertion
    sort; [lt a b] says that [cmp(a, b) < 0].  An element is placed
    before the elements that followed it unless one of them is strictly
    smaller. *)
Section Sort.
Context {A : Type} (lt : A -> A -> bool).

Fixpoint insert_sorted (x : A) (l : list A) : list A :=
  match l with
  | [] => [x]
  | y :: r => if lt y x then y :: insert_sorted x r else x :: y :: r
  end.

Definition sort (l : list A) : list A := foldr insert_sorted [] l.
End Sort.

End Js.

(** ** The data model ([types.ts]) *)

Inductive VenueType := Journal | Conference | Editorship | Unknown.

#[global] Instance VenueType_eq_dec : EqDecision VenueType.
Proof. solve_decision. Defined.

Record Article := {
  id : string;
  title : string;
  authors : list string;
  venue : string;
  venueType : VenueType;
  year : string;
  type : string;
  doi : option string;
  url : option string;
  key : option string;
  selected : bool;
}.

Inductive Mode := keyword | url_mode.
Inductive TypeFilter := all | journal | conference.

Record SearchParams := {
  mode : Mode;
  query : string;
  yearStart : option string;
  yearEnd : option string;
  typeFilter : TypeFilter;
  maxResults : Z;
}.

(** *** The raw JSON of one hit

    [info.authors.author] is a single object, an array of objects, or
    missing; the last constructor stands for any other truthy value (a
    primitive). *)

Record DBLPAuthor := { text : option string }.

Inductive AuthorsField :=
| AuthorsMissing                      (* [info.authors] is falsy *)
| AuthorMissing                       (* [info.authors.author] is falsy *)
| AuthorArray (l : list DBLPAuthor)
| AuthorObject (a : DBLPAuthor)
| AuthorPrimitive.

Record RawInfo := {
  r_type : option string;
  r_key : option string;
  r_title : option string;
  r_authors : AuthorsField;
  r_venue : option string;
  r_year : option string;
  r_doi : option string;
  r_url : option string;
}.

Record RawHit := {
  h_id : option string;               (* [hit['@id']] *)
  h_info : option RawInfo;            (* [hit.info] *)
}.

Definition empty_info : RawInfo :=
  {| r_type := None; r_key := None; r_title := None;
     r_authors := AuthorsMissing; r_venue := None; r_year := None;
     r_doi := None; r_url := None |}.

(** ** Record normalisation ([dblpService.ts], lines 5 to 37) *)

Section Normalizer.

(** What the [try] of [cleanText] makes of a non-empty text: the text
    content of the document that [DOMParser] builds from it (the empty
    string when there is none), or the text itself when the parser throws.  The
    browser supplies it. *)
Variable domText : string -> string.

Definition cleanText (t : option string) : string :=
  if Js.truthy t then domText (default "" t) else "".

Definition getVenueType (ty : option string) (k : string) : VenueType :=
  if (bool_decide (ty = Some "Article")
      || negb (String.eqb k "") && Js.startsWith k "journals/")
  then Journal
  else if (bool_decide (ty = Some "Inproceedings")
           || negb (String.eqb k "") && Js.startsWith k "conf/")
  then Conference
  else if bool_decide (ty = Some "Editorship") then Editorship
  else Unknown.

(** [parseAuthors(info)] for an [info] object; the caller passes
    [hit.info || {}], so [info] itself is never falsy. *)
Definition parseAuthors (info : RawInfo) : list string :=
  match r_authors info with
  | AuthorsMissing => ["Unknown Author"]
  | AuthorMissing => ["Unknown Author"]
  | AuthorArray l => map (fun a => cleanText (text a)) l
  | AuthorObject a => [cleanText (text a)]
  | AuthorPrimitive => ["Unknown Author"]
  end.

(** The body of the [map] of step 4; [rnd] is the string that
    [Math.random().toString()] yields when it is called for this hit. *)
Definition toArticle (rnd : string) (hit : RawHit) : Article :=
  let info := default empty_info (h_info hit) in
  let vt := getVenueType (r_type info) (Js.or_else (r_key info) "") in
  {| id := Js.or_else (Js.or_opt (h_id hit) (r_key info)) rnd;
     title := cleanText (r_title info);
     authors := parseAuthors info;
     venue := cleanText (r_venue info);
     venueType := vt;
     year := Js.or_else (r_year info) "";
     type := Js.or_else (r_type info) "Unknown";
     doi := r_doi info;
     url := r_url info;
     key := r_key info;
     selected := false |}.

End Normalizer.

(** ** The page fetcher ([fetchWithRetry], lines 43 to 82) *)

(** [data.result?.hits?.hit]: missing, an array of hits, or some other
    truthy value. *)
Inductive HitField :=
| HitMissing
| HitArray (l : list RawHit)
| HitOther.

(** What [res.json()] gives: a rejection, or an object of which the crawl
    reads [result.hits['@total']] and [result.hits.hit]. *)
Inductive Body :=
| Unparseable
| Parsed (total : option string) (hit : HitField).

(** What one call of [fetch] gives. *)
Inductive Outcome :=
| NetworkFailure                      (* rejects, transport level *)
| FetchAborted                        (* rejects with an [AbortError] *)
| Response (status : Z) (body : Body).

Inductive FetchError :=
| AbortError
| ApiError (status : Z)               (* [DBLP API Error: status ...] *)
| TransportError
| ConnectError.                       (* [Failed to connect to DBLP API.] *)

(** The effects of the fetcher: the request of attempt [i], and a sleep. *)
Inductive Event :=
| Request (i : nat)
| Delay (ms : Z).

Definition response_ok (status : Z) : bool :=
  ((200 <=? status) && (status <=? 299))%Z.

Section Fetcher.

(** [fetch i] is the outcome of the request of iteration [i];
    [aborted i] is [signal?.aborted] as read at the top of iteration
    [i]. *)
Variable fetch : nat -> Outcome.
Variable aborted : nat -> bool.

Definition backoff (i : nat) : Z := 1000 * (Z.of_nat i + 1).

(** The [for] loop from iteration [i] on, with [n] iterations left. *)
Fixpoint attempts (n i : nat) (lastError : option FetchError)
  : list Event * (FetchError + Z * Body) :=
  match n with
  | O => ([], inl (default ConnectError lastError))
  | S n' =>
      if aborted i then ([], inl AbortError)
      else
        let retry (e : option FetchError) :=
          let '(tr, r) := attempts n' (S i) e in
          (Request i :: Delay (backoff i) :: tr, r) in
        match fetch i with
        | Response status body =>
            if response_ok status then ([Request i], inr (status, body))
            else if ((500 <=? status) || (status =? 429))%Z
            then retry lastError
            else
              (* [throw new Error(...)], caught by the [catch] of the
                 same iteration *)
              retry (Some (ApiError status))
        | FetchAborted => ([Request i], inl AbortError)
        | NetworkFailure => retry (Some TransportError)
        end
  end.

Definition fetchWithRetry (retries : nat)
  : list Event * (FetchError + Z * Body) :=
  attempts retries 0 None.

End Fetcher.

(** The number of requests issued and the time slept, in milliseconds. *)
Definition requests (tr : list Event) : nat :=
  length (List.filter
            (fun e => match e with Request _ => true | Delay _ => false end)
            tr).

Definition slept (tr : list Event) : Z :=
  foldr (fun e acc => match e with Delay ms => ms + acc | Request _ => acc end)%Z
    0%Z tr.

(** ** The crawl ([fetchDBLPData], lines 84 to 245) *)

Definition BATCH_SIZE : Z := 100.
Definition CONCURRENCY_LIMIT : nat := 8.

Inductive CrawlError :=
| EmptyQuery                          (* [Search query cannot be empty.] *)
| Cancelled                           (* the rethrown [AbortError] *)
| Failed.                             (* the [Error] of the outer [catch] *)

(** What a caller that passes [onProgress] observes while a crawl runs:
    the call of [fetchWithRetry] for the page at offset [f], and the calls
    of [onProgress]. *)
Inductive CrawlEvent :=
| Launch (f : Z)
| Progress (fetched total : Z).

(** *** The query string (lines 89 to 103) *)

Module Query.

Definition trim (s : string) : string :=
  String.rev (Js.drop_while Js.is_space
                (String.rev (Js.drop_while Js.is_space s))).

Fixpoint take_while (p : ascii -> bool) (s : string) : string :=
  match s with
  | EmptyString => EmptyString
  | String c r => if p c then String c (take_while p r) else EmptyString
  end.

Fixpoint strip_prefix (p s : string) : option string :=
  match p, s with
  | EmptyString, _ => Some s
  | String a p', String b s' =>
      if Ascii.eqb a b then strip_prefix p' s' else None
  | String _ _, EmptyString => None
  end.

Definition not_slash (c : ascii) : bool := negb (Ascii.eqb c "/").

(** [head/[^/]+] anchored at the start of [s], where the capture starts
    after the three characters [db/]. *)
Definition stream_of (head s : string) : option string :=
  match strip_prefix ("db/" +:+ head) s with
  | Some r =>
      let name := take_while not_slash r in
      if String.eqb name "" then None else Some (head +:+ name)
  | None => None
  end.

Definition stream_here (s : string) : option string :=
  match stream_of "journals/" s with
  | Some m => Some m
  | None => stream_of "conf/" s
  end.

(** Group 1 of the leftmost match of
    [/db\/(journals\/[^/]+|conf\/[^/]+)/]. *)
Fixpoint stream_match (s : string) : option string :=
  match stream_here s with
  | Some m => Some m
  | None =>
      match s with
      | EmptyString => None
      | String _ r => stream_match r
      end
  end.

Definition includes_slash (s : string) : bool :=
  negb (Js.all_chars not_slash s).

Definition effective (p : SearchParams) : string :=
  match mode p with
  | url_mode =>
      match stream_match (query p) with
      | Some m => "stream:" +:+ m +:+ ":"
      | None =>
          if includes_slash (query p)
             && negb (Js.startsWith (query p) "http")
             && negb (Js.startsWith (query p) "stream:")
          then "stream:" +:+ query p +:+ ":"
          else trim (query p)
      end
  | keyword => trim (query p)
  end.

End Query.

(** *** The sliding window of in-flight page fetches (lines 146 to 191)

    JavaScript runs one continuation at a time, so a crawl is an
    interleaving of whole steps: the loop launches a fetch, or a fetch that
    is in flight settles and its continuation ([fetchBatch] after its
    [await]s, then the [catch] and [then] handlers) runs to its end.  Which
    of the in-flight fetches settles next is decided by the network; here
    it is read from a schedule, a list of indices into the in-flight
    fetches in launch order (index [k] is taken modulo their number, and an
    exhausted schedule continues with index 0). *)

Section Pool.

Context {St Err : Type}.

(** [launch f st]: the effect of calling [fetchBatch(f)] up to its first
    [await]; [settle_one f st]: the effect of the rest of it. *)
Variable launch : Z -> St -> St.
Variable settle_one : Z -> St -> Err + St.

(** One in-flight fetch settles and leaves [activePromises]. *)
Definition settle (k : nat) (active : list Z) (st : St)
  : Err + (list Z * St) :=
  let j := (k mod length active)%nat in
  match active !! j with
  | None => inr (active, st)
  | Some f =>
      match settle_one f st with
      | inl e => inl e
      | inr st' => inr (delete j active, st')
      end
  end.

(** The [for ... of offsetsToFetch] loop: launch, and wait for one
    settlement when the limit is reached. *)
Fixpoint window (offsets : list Z) (sched : list nat) (active : list Z)
  (st : St) : Err + (list nat * list Z * St) :=
  match offsets with
  | [] => inr (sched, active, st)
  | f :: rest =>
      let active' := active ++ [f] in
      let st' := launch f st in
      if (CONCURRENCY_LIMIT <=? length active')%nat
      then
        match settle (hd O sched) active' st' with
        | inl e => inl e
        | inr (a, s) => window rest (tl sched) a s
        end
      else window rest sched active' st'
  end.

(** [await Promise.all(activePromises)]: the [n] fetches still in flight
    settle one after the other. *)
Fixpoint drain (n : nat) (sched : list nat) (active : list Z) (st : St)
  : Err + St :=
  match n with
  | O => inr st
  | S n' =>
      match settle (hd O sched) active st with
      | inl e => inl e
      | inr (a, s) => drain n' (tl sched) a s
      end
  end.

Definition pool (offsets : list Z) (sched : list nat) (st : St)
  : Err + St :=
  match window offsets sched [] st with
  | inl e => inl e
  | inr (sched', active, st') => drain (length active) sched' active st'
  end.

End Pool.

(** *** The crawl itself *)

Definition hits_of (h : HitField) : list RawHit :=
  match h with
  | HitArray l => l
  | HitMissing | HitOther => []
  end.

(** The loop of lines 142 to 144, [fuel] iterations at most. *)
Fixpoint offsets_from (fuel : nat) (f targetCount : Z) : list Z :=
  match fuel with
  | O => []
  | S n =>
      if (f <? targetCount)%Z
      then f :: offsets_from n (f + BATCH_SIZE)%Z targetCount
      else []
  end.

Definition offsetsToFetch (targetCount : Z) : list Z :=
  offsets_from (Z.to_nat targetCount) BATCH_SIZE targetCount.

(** The accumulator [allHits] and what the caller has observed so far. *)
Record Acc := {
  allHits : list RawHit;
  events : list CrawlEvent;
}.

Record Run := {
  outcome : CrawlError + list Article;
  observed : list CrawlEvent;
}.

(** [params.maxResults || 50]. *)
Definition max_results (p : SearchParams) : Z :=
  if (maxResults p =? 0)%Z then 50%Z else maxResults p.

(** Lines 112 and 120 to 122: [totalMatches] starts at 0 and is replaced by
    [parseInt] of the [@total] property when that property is truthy. *)
Definition totalMatches_of (total : option string) : option Z :=
  if Js.truthy total then Js.parseInt (default "" total) else Some 0%Z.

(** Line 131. *)
Definition effectiveTotal (totalMatches : option Z) (maxR : Z) : Z :=
  if Js.ltb (Some 0%Z) totalMatches
  then Z.min (default 0%Z totalMatches) maxR else maxR.

(** Step 5, the predicate of the final [filter]. *)
Definition keep (p : SearchParams) (a : Article) : bool :=
  match Js.parseInt (year a) with
  | None => true
  | Some y =>
      let start :=
        if Js.truthy (yearStart p)
        then Js.parseInt (default "" (yearStart p)) else Some 0%Z in
      let stop :=
        if Js.truthy (yearEnd p)
        then Js.parseInt (default "" (yearEnd p)) else Some 9999%Z in
      let yearMatch := Js.geb (Some y) start && Js.leb (Some y) stop in
      let typeMatch :=
        match typeFilter p with
        | all => true
        | journal => bool_decide (venueType a = Journal)
        | conference => bool_decide (venueType a = Conference)
        end in
      yearMatch && typeMatch
  end.

Section Crawl.

Variable domText : string -> string.

(** The network: [net f i] is the outcome of attempt [i] of the request
    for the page at offset [f], and [sig f i] what that attempt reads
    from [signal?.aborted] before it starts.  A cancellation reaches the
    crawl through the page fetches: where [fetchDBLPData] itself reads
    [signal?.aborted] (lines 151, 168 and 194) the signal is taken as
    not aborted. *)
Variable net : Z -> nat -> Outcome.
Variable sig : Z -> nat -> bool.

(** [rnd i] is what [Math.random().toString()] gives for the hit at
    index [i] of [rawArticles]. *)
Variable rnd : nat -> string.

Definition launchBatch (f : Z) (st : Acc) : Acc :=
  {| allHits := allHits st; events := events st ++ [Launch f] |}.

(** [fetchBatch(offset)] from its first [await] on, with the [catch] of
    lines 172 to 177: an [AbortError] is rethrown, any other failure of
    the page is logged and dropped. *)
Definition fetchBatch (targetCount : Z) (f : Z) (st : Acc)
  : CrawlError * Acc + Acc :=
  match snd (fetchWithRetry (net f) (sig f) 3) with
  | inl AbortError => inl (Cancelled, st)
  | inl _ => inr st
  | inr (_, Unparseable) => inr st
  | inr (_, Parsed _ hit) =>
      let hits := allHits st ++ hits_of hit in
      inr {| allHits := hits;
             events := events st ++
               [Progress (Z.min (Z.of_nat (length hits)) targetCount)
                  targetCount] |}
  end.

(** Steps 4 and 5. *)
Definition finish (p : SearchParams) (maxR : Z) (hits : list RawHit)
  : list Article :=
  let rawArticles := Js.slice0 hits maxR in
  let articles := imap (fun i hit => toArticle domText (rnd i) hit)
                    rawArticles in
  List.filter (keep p) articles.

(** [sched] is the order in which the in-flight fetches settle (see
    [Pool]). *)
Definition fetchDBLPData (p : SearchParams) (sched : list nat) : Run :=
  if String.eqb (Query.effective p) ""
  then {| outcome := inl EmptyQuery; observed := [] |}
  else
    let maxR := max_results p in
    match snd (fetchWithRetry (net 0) (sig 0) 3) with
    | inl AbortError => {| outcome := inl Cancelled; observed := [Launch 0] |}
    | inl _ => {| outcome := inl Failed; observed := [Launch 0] |}
    | inr (_, Unparseable) =>
        {| outcome := inl Failed; observed := [Launch 0] |}
    | inr (_, Parsed total hit) =>
        let totalMatches := totalMatches_of total in
        let firstHits := hits_of hit in
        let len := Z.of_nat (length firstHits) in
        let st := {| allHits := firstHits;
                     events := [Launch 0;
                                Progress len (effectiveTotal totalMatches maxR)] |} in
        (* [allHits.length < targetCount] is false when [targetCount]
           is [NaN] *)
        let fetched :=
          match Js.min totalMatches (Some maxR) with
          | Some targetCount =>
              if (len <? targetCount)%Z
              then pool launchBatch (fetchBatch targetCount)
                     (offsetsToFetch targetCount) sched st
              else inr st
          | None => inr st
          end in
        match fetched with
        | inl (e, st') => {| outcome := inl e; observed := events st' |}
        | inr st' =>
            {| outcome := inr (finish p maxR (allHits st'));
               observed := events st' |}
        end
    end.

End Crawl.

(** ** Title analytics *)

Definition STOP_WORDS : list string := [
  "the"; "a"; "an"; "and"; "or"; "but"; "in"; "on"; "at"; "to"; "for"; "of";
  "with"; "by"; "from"; "up"; "about"; "into"; "over"; "after"; "is"; "are";
  "was"; "were"; "be"; "been"; "being"; "have"; "has"; "had"; "do"; "does";
  "did"; "will"; "would"; "should"; "can"; "could"; "this"; "that"; "these";
  "those"; "it"; "its"; "they"; "their"; "we"; "our"; "which"; "who"; "what";
  "when"; "where"; "how"; "why"; "based"; "using"; "via"; "through";
  "approach"; "method"; "system"; "analysis"; "survey"; "review"; "study";
  "towards"; "new"; "novel"; "application"; "performance"; "evaluation";
  "data"; "model"; "algorithm"; "network"; "networks"; "learning"; "problem";
  "problems"; "efficient"; "multi"; "large"; "scale"; "real"; "time"; "under";
  "during"; "between"; "among"; "proposed"; "framework"; "architecture"
].

(** [l.includes(x)] and [set.has(x)] on strings. *)
Definition includes (l : list string) (x : string) : bool :=
  existsb (String.eqb x) l.

(** [new Set(l)] as the list of its elements in insertion order: the first
    occurrence of each value is kept. *)
Fixpoint set_from (seen l : list string) : list string :=
  match l with
  | [] => []
  | x :: r =>
      if includes seen x then set_from seen r
      else x :: set_from (x :: seen) r
  end.

Definition new_Set (l : list string) : list string := set_from [] l.

(** [s.split(/\s+/)]: the pieces between the maximal runs of white space,
    the empty pieces at both ends included.  [in_sep] says that the
    previous character belonged to a separator, [cur] is the piece read so
    far. *)
Fixpoint split_go (in_sep : bool) (cur s : string) : list string :=
  match s with
  | EmptyString => [cur]
  | String c r =>
      if Js.is_space c
      then if in_sep then split_go true "" r else cur :: split_go true "" r
      else split_go false (cur +:+ String c "") r
  end.

Definition split_spaces (s : string) : list string := split_go false "" s.

(** The characters that [replace(/[^\w\s-]/g, '')] keeps. *)
Definition kept_char (c : ascii) : bool :=
  Js.is_word c || Js.is_space c || Ascii.eqb c "-".

(** [/^\d+$/.test(w)]. *)
Definition all_digits (w : string) : bool :=
  negb (String.eqb w "") && Js.all_chars Js.is_digit w.

Definition tokenize (text : string) : list string :=
  List.filter
    (fun w => (2 <? String.length w)%nat
              && negb (includes STOP_WORDS w)
              && negb (all_digits w))
    (split_spaces (Js.filter_chars kept_char (Js.toLowerCase text))).

(** *** [generateTrends] *)

(** A value of a [KeywordTrend] property: [number | string]. *)
Inductive Cell :=
| Str (s : string)
| Num (n : nat).

(** A [KeywordTrend] object is the finite map of its own properties. *)
Abbreviation KeywordTrend := (gmap string Cell).

(** [entry[kw] = v], the assignment of a string or a number to a property
    of the plain object [entry].  Under the name [__proto__] every plain
    object inherits an accessor from [Object.prototype], and its setter
    ignores a value that is neither an object nor [null]: the assignment
    stores nothing and [entry] gets no own property of that name.  Under
    any other name the assignment creates or overwrites an own property
    (the other properties of [Object.prototype] are writable data
    properties, which an assignment shadows). *)
Definition assign (kw : string) (v : Cell) (entry : KeywordTrend)
  : KeywordTrend :=
  if String.eqb kw "__proto__" then entry else <[kw := v]> entry.

(** The inner [forEach] of lines 48 to 51. *)
Definition count_term (yearArticles : list Article) (kw : string) : nat :=
  foldl (fun count a =>
           if includes (tokenize (title a)) kw then S count else count)
    O yearArticles.

Definition trend_row (articles : list Article) (topKeywords : list string)
  (y : string) : KeywordTrend :=
  let yearArticles := List.filter (fun a => String.eqb (year a) y) articles in
  foldl (fun entry kw => assign kw (Num (count_term yearArticles kw)) entry)
    {["year" := Str y]} topKeywords.

(** The default [sort()] orders strings by their code units. *)
Definition years_of (articles : list Article) : list string :=
  Js.sort String.ltb (new_Set (map year articles)).

Definition generateTrends (articles : list Article)
  (topKeywords : list string) : list KeywordTrend :=
  map (trend_row articles topKeywords) (years_of articles).

(** *** [findSimilarArticles]

    A score is kept as the two integers it is computed from: its value is
    [overlap / (Math.sqrt(norm) || 1)], where [norm] is
    [targetTokens.size * articleTokens.length].  Scores are compared as
    exact quotients; the rounding of floating-point arithmetic is left
    out. *)

Record Score := {
  overlap : nat;
  norm : nat;
}.

Record SimilarityResult := {
  article : Article;
  score : Score;
  sharedTerms : list string;
}.

(** The square of the denominator [Math.sqrt(norm) || 1]. *)
Definition den2 (s : Score) : nat :=
  if (norm s =? 0)%nat then 1%nat else norm s.

(** [a < b] on scores, on the squares. *)
Definition score_ltb (a b : Score) : bool :=
  (overlap a * overlap a * den2 b <? overlap b * overlap b * den2 a)%nat.

(** [s > 0.1]. *)
Definition above_threshold (s : Score) : bool :=
  (den2 s <? 100 * (overlap s * overlap s))%nat.

(** [s > 1]. *)
Definition above_one (s : Score) : bool :=
  (den2 s <? overlap s * overlap s)%nat.

Definition similarity (targetTokens : list string) (a : Article)
  : SimilarityResult :=
  let articleTokens := tokenize (title a) in
  let intersection := List.filter (includes targetTokens) articleTokens in
  {| article := a;
     score := {| overlap := length intersection;
                 norm := length targetTokens * length articleTokens |};
     sharedTerms := intersection |}.

Definition findSimilarArticles (target : Article) (allArticles : list Article)
  (limit : nat) : list SimilarityResult :=
  let targetTokens := new_Set (tokenize (title target)) in
  let results :=
    map (similarity targetTokens)
      (List.filter (fun a => negb (String.eqb (id a) (id target)))
         allArticles) in
  firstn limit
    (Js.sort (fun a b => score_ltb (score b) (score a))
       (List.filter (fun r => above_threshold (score r)) results)).

(** The value of a score as a real number. *)
Definition score_value (s : Score) : R :=
  let root := sqrt (INR (norm s)) in
  (INR (overlap s) / (if Req_dec_T root 0 then 1 else root))%R.

(** ** Derived notions used in the statements *)

(** The hits that the page at offset [f] contributes to [allHits]: none
    when its fetch fails or its body cannot be read. *)
Definition page_hits (net : Z -> nat -> Outcome) (sig : Z -> nat -> bool)
  (f : Z) : list RawHit :=
  match snd (fetchWithRetry (net f) (sig f) 3) with
  | inr (_, Parsed _ hit) => hits_of hit
  | _ => []
  end.

(** The order in which the window lets the fetches of [offsets] settle
    under a schedule: the pool run on a state that only records the
    offsets as they settle. *)
Definition completion (offsets : list Z) (sched : list nat) : list Z :=
  match pool (Err := Empty_set) (fun _ l => l) (fun f l => inr (l ++ [f]))
          offsets sched [] with
  | inr l => l
  | inl e => match e with end
  end.

(** The offsets requested after the first page, from the [@total] of the
    first page and the number of its hits (lines 136 to 144). *)
Definition remaining (total : option string) (firstHits : list RawHit)
  (maxR : Z) : list Z :=
  match Js.min (totalMatches_of total) (Some maxR) with
  | Some targetCount =>
      if (Z.of_nat (length firstHits) <? targetCount)%Z
      then offsetsToFetch targetCount else []
  | None => []
  end.

(** The pages that a crawl requests: page 0 and, once it is read, the
    remaining offsets. *)
Definition requested_pages (net : Z -> nat -> Outcome)
  (sig : Z -> nat -> bool) (p : SearchParams) : list Z :=
  match snd (fetchWithRetry (net 0%Z) (sig 0%Z) 3) with
  | inr (_, Parsed total hit) =>
      0%Z :: remaining total (hits_of hit) (max_results p)
  | _ => []
  end.

(** The arguments of the calls of [onProgress], in the order of the
    calls. *)
Definition progress_calls (evs : list CrawlEvent) : list (Z * Z) :=
  flat_map (fun e => match e with
                     | Progress fetched total => [(fetched, total)]
                     | Launch _ => []
                     end) evs.

(** What the pool keeps true of the calls of [onProgress]: they are the
    call [(len, eff)] that follows the first page, then calls
    [(x, target)] where [x] lies between [len] and the minimum of
    [allHits.length] and [target] and never decreases. *)
Definition progress_invariant (len eff target : Z) (st : Acc) : Prop :=
  exists rest,
    progress_calls (events st) = (len, eff) :: rest
    /\ Forall (fun call =>
                 (len <= fst call
                  <= Z.min (Z.of_nat (length (allHits st))) target)%Z
                 /\ snd call = target) rest
    /\ StronglySorted Z.le (map fst rest)
    /\ (len <= Z.of_nat (length (allHits st)))%Z.


(** ** Sample data for the concrete runs *)

Module Sample.

Definition info (ty k t y : string) : RawInfo :=
  {| r_type := Some ty; r_key := Some k; r_title := Some t;
     r_authors := AuthorObject {| text := Some "Ada Lovelace" |};
     r_venue := Some "VLDB"; r_year := Some y;
     r_doi := None; r_url := None |}.

(** Hit number [n] of the result list of the source. *)
Definition hit (n : nat) : RawHit :=
  {| h_id := Some (pretty n);
     h_info := Some (info "Article" ("journals/pvldb/" +:+ pretty n)
                       "Query processing" "2020") |}.

(** The page of [size] hits at offset [f]. *)
Definition page (f size : nat) : list RawHit := map hit (seq f size).

Definition params (n : Z) (tf : TypeFilter) : SearchParams :=
  {| mode := keyword; query := "query processing"; yearStart := None;
     yearEnd := None; typeFilter := tf; maxResults := n |}.

Definition never : Z -> nat -> bool := fun _ _ => false.
Definition no_random : nat -> string := fun _ => "0.5".
Definition plain : string -> string := fun s => s.

(** A source with [n] matching hits that answers every request at its
    first attempt. *)
Definition source (n : nat) : Z -> nat -> Outcome :=
  fun f _ =>
    Response 200
      (Parsed (Some (pretty n))
         (HitArray (page (Z.to_nat f) (Nat.min 100 (n - Z.to_nat f))))).

(** The same source, which leaves out [@total]. *)
Definition source_without_total (n : nat) : Z -> nat -> Outcome :=
  fun f _ =>
    Response 200
      (Parsed None
         (HitArray (page (Z.to_nat f) (Nat.min 100 (n - Z.to_nat f))))).


(** A source that answers every request with the same status. *)
Definition failing (status : Z) : nat -> Outcome :=
  fun _ => Response status Unparseable.

(** A hit whose author array is empty. *)
Definition anonymous : RawHit :=
  {| h_id := Some "7";
     h_info := Some
       {| r_type := Some "Article"; r_key := Some "journals/x/y";
          r_title := Some "Untitled"; r_authors := AuthorArray [];
          r_venue := None; r_year := Some "1999";
          r_doi := None; r_url := None |} |}.

(** A conference paper without a year. *)
Definition undated : RawHit :=
  {| h_id := Some "8";
     h_info := Some
       {| r_type := Some "Inproceedings"; r_key := Some "conf/sigmod/Doe";
          r_title := Some "Indexing"; r_authors := AuthorsMissing;
          r_venue := Some "SIGMOD"; r_year := None;
          r_doi := None; r_url := None |} |}.

Definition single (h : RawHit) : Z -> nat -> Outcome :=
  fun _ _ => Response 200 (Parsed (Some "1") (HitArray [h])).

Definition paper (i y t : string) : Article :=
  {| id := i; title := t; authors := ["Ada Lovelace"]; venue := "VLDB";
     venueType := Journal; year := y; type := "Article"; doi := None;
     url := None; key := None; selected := false |}.

(** The three records of the trend example. *)
Definition trend_records : list Article :=
  [ paper "1" "2020" "Graph Neural Networks";
    paper "2" "2020" "Graph Databases";
    paper "3" "2021" "Neural Compression" ].

End Sample.

(** ** The rest of the analytics module *)

(** *** [extractKeywords]

    [counts] is an object used as a map from terms to numbers.  The
    tokens of [tokenize] are never array indices (a token of digits only
    is dropped), so [Object.entries] lists the terms in the order of
    their first occurrence: the map is the list of its entries in that
    order. *)

Record KeywordData := {
  term : string;                      (* [text] *)
  value : nat;
}.

(** [counts[t] = (counts[t] || 0) + 1]. *)
Fixpoint bump (t : string) (counts : list (string * nat))
  : list (string * nat) :=
  match counts with
  | [] => [(t, 1%nat)]
  | (k, v) :: r => if String.eqb k t then (k, S v) :: r else (k, v) :: bump t r
  end.

(** [counts[t] = (counts[t] || 0) + 1] for a token [t].  Two tokens are
    names that the object literal [counts] inherits from
    [Object.prototype], so that [counts[t]] is not [undefined] at first
    and the sum is a string concatenation.  For [__proto__] the string is
    then handed to the inherited setter, which ignores it: the token is
    not counted.  For [constructor] the string becomes the value of the
    entry (see [extractKeywords]). *)
Definition count_token (counts : list (string * nat)) (t : string)
  : list (string * nat) :=
  if String.eqb t "__proto__" then counts else bump t counts.

(** The tokens of all titles, in the order of the two nested
    [forEach]. *)
Definition all_tokens (articles : list Article) : list string :=
  flat_map (fun a => tokenize (title a)) articles.

(** [None] when a title holds the token [constructor]: the value of its
    entry is a string, for which the comparator of the sort gives [NaN];
    this embedding leaves the case out. *)
Definition extractKeywords (articles : list Article) (limit : nat)
  : option (list KeywordData) :=
  let tokens := all_tokens articles in
  if includes tokens "constructor" then None
  else
    let counts := foldl count_token [] tokens in
    Some (firstn limit
            (Js.sort (fun a b => (value b <? value a)%nat)
               (map (fun e => {| term := fst e; value := snd e |}) counts))).

(** The number of occurrences of [t] in [l]. *)
Definition occurrences (t : string) (l : list string) : nat :=
  length (List.filter (String.eqb t) l).


(** *** [generateCorrelationHeatmap] *)

Module Heatmap.

Record Cell := {
  x : string;
  y : string;
  value : nat;
}.

(** The [forEach] of lines 108 to 113. *)
Definition count_both (articles : list Article) (k1 k2 : string) : nat :=
  foldl (fun count a =>
           let tokens := tokenize (title a) in
           if includes tokens k1 && includes tokens k2
           then S count else count)
    O articles.

Definition generateCorrelationHeatmap (articles : list Article)
  (topKeywords : list string) : list Cell :=
  let matrixKeys := firstn 10 topKeywords in
  flat_map (fun k1 =>
    flat_map (fun k2 =>
      let count := count_both articles k1 k2 in
      if (0 <? count)%nat then [{| x := k1; y := k2; value := count |}]
      else [])
      matrixKeys)
    matrixKeys.

End Heatmap.

(** ** The citation key of [generateBibTeX] ([dblpService.ts], line 249) *)

Module BibTeX.

(** [s.split('/').pop()]: the part of [s] after its last slash; [cur] is
    the part read since the last slash. *)
Fixpoint last_segment (cur s : string) : string :=
  match s with
  | EmptyString => cur
  | String c r =>
      if Ascii.eqb c "/" then last_segment "" r
      else last_segment (cur +:+ String c "") r
  end.

(** [article.key?.split('/').pop() || `dblp_${...}`]; [rnd] is
    [Math.floor(Math.random() * 10000)]. *)
Definition cite_key (rnd : nat) (a : Article) : string :=
  match key a with
  | Some k => Js.or_else (Some (last_segment "" k)) ("dblp_" +:+ pretty rnd)
  | None => "dblp_" +:+ pretty rnd
  end.

End BibTeX.

(** ** The list handlers of the application ([App.tsx]) *)

Module App.

Record FilterConfig := {
  fc_keyword : string;                (* [keyword] *)
  fc_venue : string;                  (* [venue] *)
}.

(** [{ ...a, selected: b }]. *)
Definition set_selected (b : bool) (a : Article) : Article :=
  {| id := id a; title := title a; authors := authors a; venue := venue a;
     venueType := venueType a; year := year a; type := type a;
     doi := doi a; url := url a; key := key a; selected := b |}.

(** The updater of [handleToggleSelect] and [handleToggleSavedSelect]. *)
Definition handleToggleSelect (i : string) (prev : list Article)
  : list Article :=
  map (fun a => if String.eqb (id a) i
                then set_selected (negb (selected a)) a else a) prev.

(** [toggleBookmark]: the test reads the list [savedArticles] of the
    render in which the handler was created, the updater is applied to
    the state [prev] of the moment. *)
Definition toggleBookmark (article : Article)
  (savedArticles prev : list Article) : list Article :=
  if existsb (fun a => String.eqb (id a) (id article)) savedArticles
  then List.filter (fun a => negb (String.eqb (id a) (id article))) prev
  else prev ++ [set_selected false article].

(** [s.includes(sub)]. *)
Fixpoint str_includes (s sub : string) : bool :=
  String.prefix sub s
  || match s with
     | EmptyString => false
     | String _ r => str_includes r sub
     end.

(** The predicate of [filteredArticles] (lines 159 to 170). *)
Definition visible (filters : FilterConfig) (article : Article) : bool :=
  let keywordMatch :=
    String.eqb (fc_keyword filters) ""
    || str_includes (Js.toLowerCase (title article))
         (Js.toLowerCase (fc_keyword filters))
    || existsb (fun a => str_includes (Js.toLowerCase a)
                           (Js.toLowerCase (fc_keyword filters)))
         (authors article) in
  let venueMatch :=
    String.eqb (fc_venue filters) ""
    || str_includes (Js.toLowerCase (venue article))
         (Js.toLowerCase (fc_venue filters)) in
  keywordMatch && venueMatch.

Definition filteredArticles (filters : FilterConfig)
  (activeRawList : list Article) : list Article :=
  List.filter (visible filters) activeRawList.

(** [handleSelectAll] (lines 173 to 187): [shown] is the list
    [filteredArticles] of the render in which the handler was created,
    the updater is applied to the state [prev] of the moment. *)
Definition handleSelectAll (shown prev : list Article) : list Article :=
  let idsToSelect := new_Set (map id shown) in
  let allSelected := forallb selected shown in
  map (fun a => if includes idsToSelect (id a)
                then set_selected (negb allSelected) a else a) prev.

End App.

(** ** Instruments for the statements about the pool *)

(** The offsets for which [fetchWithRetry] was called, in the order of the
    calls. *)
Definition launches (evs : list CrawlEvent) : list Z :=
  flat_map (fun e => match e with
                     | Launch f => [f]
                     | Progress _ _ => []
                     end) evs.

(** A counter of the fetches in flight and of the largest number of them
    seen so far: a launch adds one, a settlement takes one away. *)
Definition flight_launch (f : Z) (s : nat * nat) : nat * nat :=
  (S (fst s), Nat.max (snd s) (S (fst s))).

Definition flight_settle (f : Z) (s : nat * nat) : Empty_set + nat * nat :=
  inr (Nat.pred (fst s), snd s).

(** The characters of a token: lower-case letters, digits, the underscore
    and the hyphen. *)
Definition token_char (c : ascii) : bool :=
  let n := Js.code c in
  ((97 <=? n) && (n <=? 122) || Js.is_digit c || (n =? 95) || (n =? 45))%N.

(** * Properties *)

(** ** Record normalisation *)

Lemma startsWith_empty (p : string) :
  p <> "" -> Js.startsWith "" p = false.
Proof. destruct p; [congruence | reflexivity]. Qed.

Lemma key_guard (k p : string) :
  p <> "" ->
  negb (String.eqb k "") && Js.startsWith k p = Js.startsWith k p.
Proof.
  intros Hp. destruct (String.eqb_spec k "") as [-> | _]; simpl.
  - symmetry. by apply startsWith_empty.
  - reflexivity.
Qed.

(** The four answers of [getVenueType], each by the exact condition under
    which it is given. *)
Lemma getVenueType_cases (ty : option string) (k : string) :
  let J := ty = Some "Article" \/ Js.startsWith k "journals/" = true in
  let C := ty = Some "Inproceedings" \/ Js.startsWith k "conf/" = true in
  let E := ty = Some "Editorship" in
  (getVenueType ty k = Journal <-> J)
  /\ (getVenueType ty k = Conference <-> ~ J /\ C)
  /\ (getVenueType ty k = Editorship <-> ~ J /\ ~ C /\ E)
  /\ (getVenueType ty k = Unknown <-> ~ J /\ ~ C /\ ~ E).
Proof.
  unfold getVenueType.
  rewrite !key_guard by discriminate.
  destruct (Js.startsWith k "journals/") eqn:Hj,
           (Js.startsWith k "conf/") eqn:Hc;
    repeat case_bool_decide; simpl;
    intuition (try discriminate; try congruence).
Qed.

(** C7, as stated, fails: a hit whose type field is [Inproceedings] and
    whose key starts with [journals/] is classified as a journal paper, not
    as a conference paper. *)
Lemma C7_type_field_does_not_take_precedence :
  getVenueType (Some "Inproceedings") "journals/tods/Smith20" = Journal
  /\ getVenueType (Some "Inproceedings") "journals/tods/Smith20" <> Conference.
Proof. split; [reflexivity | discriminate]. Qed.

(** C7, amended.  Classification tests the two sources of evidence for
    Journal first: a type field [Article] or a key that starts with
    [journals/] gives Journal, whatever the other field says (so [Article]
    wins over a [conf/] key, and a [journals/] key wins over
    [Inproceedings]).  Failing that, a type field [Inproceedings] or a key
    that starts with [conf/] gives Conference; failing that, a type field
    [Editorship] gives Editorship; Unknown is returned otherwise. *)
Theorem C7_getVenueType_journal_evidence_first (ty : option string) (k : string) :
  (getVenueType ty k = Journal <->
     ty = Some "Article" \/ Js.startsWith k "journals/" = true)
  /\ (getVenueType ty k = Conference <->
        ~ (ty = Some "Article" \/ Js.startsWith k "journals/" = true)
        /\ (ty = Some "Inproceedings" \/ Js.startsWith k "conf/" = true))
  /\ (getVenueType ty k = Editorship <->
        ~ (ty = Some "Article" \/ Js.startsWith k "journals/" = true)
        /\ ~ (ty = Some "Inproceedings" \/ Js.startsWith k "conf/" = true)
        /\ ty = Some "Editorship")
  /\ (getVenueType ty k = Unknown <->
        ~ (ty = Some "Article" \/ Js.startsWith k "journals/" = true)
        /\ ~ (ty = Some "Inproceedings" \/ Js.startsWith k "conf/" = true)
        /\ ty <> Some "Editorship").
Proof. exact (getVenueType_cases ty k). Qed.


(** C6: the code departs from the claim on a hit whose author array is
    empty.  The three guards of [parseAuthors] substitute the placeholder
    for a missing [authors], a missing [author] and a primitive, but the
    array branch maps over the array as it is: the record gets an empty
    author list. *)
Theorem C6_empty_author_array_gives_no_author
  (domText : string -> string) (rnd : string) :
  parseAuthors domText
    {| r_type := None; r_key := None; r_title := None;
       r_authors := AuthorArray []; r_venue := None; r_year := None;
       r_doi := None; r_url := None |} = []
  /\ authors (toArticle domText rnd Sample.anonymous) = [].
Proof. split; reflexivity. Qed.

(** ** The page fetcher *)

Lemma other_4xx_not_ok (status : Z) :
  (400 <= status < 500)%Z -> status <> 429%Z ->
  response_ok status = false
  /\ ((500 <=? status) || (status =? 429))%Z = false.
Proof.
  intros H1 H2. unfold response_ok. split.
  - apply andb_false_iff. right. lia.
  - apply orb_false_iff. split; lia.
Qed.

(** C4: the code departs from the claim on every 4xx status other than
    429.  The [throw] of line 73 sits inside the [try] whose [catch]
    handles transport failures, so the error is stored, the back-off is
    slept and the next attempt is made: with three attempts the fetcher
    issues three requests and sleeps 1000, 2000 and 3000 ms before it
    reports the error. *)
Theorem C4_other_4xx_is_retried (status : Z) (body : Body) :
  (400 <= status < 500)%Z -> status <> 429%Z ->
  let run := fetchWithRetry (fun _ => Response status body) (fun _ => false) 3 in
  run = ([Request 0; Delay 1000; Request 1; Delay 2000; Request 2; Delay 3000],
         inl (ApiError status))
  /\ requests (fst run) = 3%nat
  /\ slept (fst run) = 6000%Z.
Proof.
  intros H1 H2. destruct (other_4xx_not_ok status H1 H2) as [Hok Hre].
  cbv zeta. unfold fetchWithRetry. simpl. rewrite Hok, Hre. simpl.
  repeat split.
Qed.

Lemma C4_other_4xx_is_retried_witness :
  (400 <= 404 < 500)%Z /\ 404%Z <> 429%Z
  /\ let run := fetchWithRetry (Sample.failing 404) (fun _ => false) 3 in
     run = ([Request 0; Delay 1000; Request 1; Delay 2000; Request 2;
             Delay 3000],
            inl (ApiError 404))
     /\ requests (fst run) = 3%nat
     /\ slept (fst run) = 6000%Z.
Proof.
  split; [lia | split; [lia |]].
  apply (C4_other_4xx_is_retried 404 Unparseable); lia.
Defined.

(** ** The sliding window *)

(** Two runs of the pool under one schedule, on two kinds of state: what
    relates the states at the start relates them at the end, as long as
    each step keeps the relation.  The second run cannot fail. *)
Section PoolSimulation.

Context {S1 E1 S2 : Type}.
Variable launch1 : Z -> S1 -> S1.
Variable settle1 : Z -> S1 -> E1 + S1.
Variable launch2 : Z -> S2 -> S2.
Variable settle2 : Z -> S2 -> S2.
Variable R : S1 -> S2 -> Prop.

Hypothesis launch_R :
  forall f s1 s2, R s1 s2 -> R (launch1 f s1) (launch2 f s2).
Hypothesis settle_R :
  forall f s1 s1' s2,
    R s1 s2 -> settle1 f s1 = inr s1' -> R s1' (settle2 f s2).

Let total2 : Z -> S2 -> Empty_set + S2 := fun f s => inr (settle2 f s).

Lemma settle_sim k active s1 s2 a s1' :
  R s1 s2 ->
  settle settle1 k active s1 = inr (a, s1') ->
  exists s2', settle total2 k active s2 = inr (a, s2') /\ R s1' s2'.
Proof.
  unfold settle, total2. cbv zeta. intros HR.
  destruct (active !! (k mod length active)%nat) as [f | ].
  - destruct (settle1 f s1) as [e | s] eqn:Hs; [discriminate |].
    intros [= <- <-]. eauto.
  - intros [= <- <-]. eauto.
Qed.

Lemma window_sim offsets : forall sched active s1 s2 sched' a s1',
  R s1 s2 ->
  window launch1 settle1 offsets sched active s1 = inr (sched', a, s1') ->
  exists s2',
    window launch2 total2 offsets sched active s2 = inr (sched', a, s2')
    /\ R s1' s2'.
Proof.
  induction offsets as [ | f rest IH]; cbn [window];
    intros sched active s1 s2 sched' a s1' HR.
  - intros [= <- <- <-]. eauto.
  - destruct (CONCURRENCY_LIMIT <=? length (active ++ [f]))%nat.
    + destruct (settle settle1 (hd O sched) (active ++ [f]) (launch1 f s1))
        as [e | [a1 t1]] eqn:Hs; [discriminate |].
      destruct (settle_sim _ _ _ (launch2 f s2) _ _ (launch_R f _ _ HR) Hs)
        as (t2 & -> & HR').
      eauto.
    + eauto.
Qed.

Lemma drain_sim n : forall sched active s1 s2 s1',
  R s1 s2 ->
  drain settle1 n sched active s1 = inr s1' ->
  exists s2', drain total2 n sched active s2 = inr s2' /\ R s1' s2'.
Proof.
  induction n as [ | n IH]; cbn [drain]; intros sched active s1 s2 s1' HR.
  - intros [= <-]. eauto.
  - destruct (settle settle1 (hd O sched) active s1)
      as [e | [a1 t1]] eqn:Hs; [discriminate |].
    destruct (settle_sim _ _ _ s2 _ _ HR Hs) as (t2 & -> & HR').
    eauto.
Qed.

Lemma pool_sim offsets sched s1 s2 s1' :
  R s1 s2 ->
  pool launch1 settle1 offsets sched s1 = inr s1' ->
  exists s2', pool launch2 total2 offsets sched s2 = inr s2' /\ R s1' s2'.
Proof.
  unfold pool. intros HR.
  destruct (window launch1 settle1 offsets sched [] s1)
    as [e | [[sched' a] t1]] eqn:Hw; [discriminate |].
  destruct (window_sim _ _ _ _ s2 _ _ _ HR Hw) as (t2 & -> & HR').
  eauto using drain_sim.
Qed.

End PoolSimulation.

(** The pool on the state that records the offsets as they settle. *)
Abbreviation record_settle :=
  (fun (f : Z) (l : list Z) => @inr Empty_set (list Z) (l ++ [f])).
Abbreviation record_launch := (fun (_ : Z) (l : list Z) => l).

Lemma settle_record k active l :
  active <> [] ->
  exists j f,
    active !! j = Some f
    /\ settle record_settle k active l = inr (delete j active, l ++ [f]).
Proof.
  intros Hne. unfold settle. cbv zeta.
  assert (Hlt : (k mod length active < length active)%nat).
  { apply Nat.mod_upper_bound. destruct active; simpl; congruence. }
  destruct (lookup_lt_is_Some_2 _ _ Hlt) as [f Hf].
  exists (k mod length active)%nat, f. by rewrite Hf.
Qed.

(** Every launched fetch settles exactly once. *)
Lemma window_record_perm offsets : forall sched active l,
  exists sched' a l',
    window record_launch record_settle offsets sched active l
      = inr (sched', a, l')
    /\ l' ++ a ≡ₚ l ++ active ++ offsets.
Proof.
  induction offsets as [ | f rest IH]; cbn [window]; intros sched active l.
  - exists sched, active, l. by rewrite app_nil_r.
  - destruct (CONCURRENCY_LIMIT <=? length (active ++ [f]))%nat.
    + destruct (settle_record (hd O sched) (active ++ [f]) l)
        as (j & g & Hj & ->); [by destruct active |].
      destruct (IH (tl sched) (delete j (active ++ [f])) (l ++ [g]))
        as (sched' & a & l' & -> & HP).
      exists sched', a, l'. split; [done |].
      rewrite HP, <- !app_assoc. f_equiv. simpl.
      change (g :: delete j (active ++ [f]) ++ rest)
        with ((g :: delete j (active ++ [f])) ++ rest).
      by rewrite <- (delete_Permutation _ _ _ Hj), <- app_assoc.
    + destruct (IH sched (active ++ [f]) l) as (sched' & a & l' & -> & HP).
      exists sched', a, l'. split; [done |].
      by rewrite HP, <- !app_assoc.
Qed.

Lemma drain_record_perm n : forall sched active l,
  length active = n ->
  exists l', drain record_settle n sched active l = inr l'
             /\ l' ≡ₚ l ++ active.
Proof.
  induction n as [ | n IH]; cbn [drain]; intros sched active l Hlen.
  - destruct active; [ | discriminate]. exists l. by rewrite app_nil_r.
  - destruct (settle_record (hd O sched) active l)
      as (j & g & Hj & ->); [by destruct active |].
    destruct (IH (tl sched) (delete j active) (l ++ [g])) as (l' & -> & HP).
    { rewrite length_delete by eauto. lia. }
    exists l'. split; [done |].
    rewrite HP, <- app_assoc. f_equiv. simpl.
    symmetry. by apply delete_Permutation.
Qed.

Lemma completion_perm offsets sched : completion offsets sched ≡ₚ offsets.
Proof.
  unfold completion, pool.
  destruct (window_record_perm offsets sched [] [])
    as (sched' & a & l' & -> & HP).
  destruct (drain_record_perm (length a) sched' a l' eq_refl) as (l & -> & HP').
  by rewrite HP', HP.
Qed.

(** When the oldest in-flight fetch always settles first, the fetches
    settle in the order of their launch. *)
Lemma settle_record_oldest f active l :
  settle record_settle 0 (f :: active) l = inr (active, l ++ [f]).
Proof.
  unfold settle. cbv zeta.
  replace (0 mod length (f :: active))%nat with 0%nat; [done |].
  symmetry. apply Nat.mod_small. simpl. lia.
Qed.

Lemma oldest_first_step (sched : list nat) :
  Forall (eq 0%nat) sched -> hd 0%nat sched = 0%nat /\ Forall (eq 0%nat) (tl sched).
Proof. intros [ | k r <- Hr]; simpl; auto. Qed.

Lemma window_record_fifo offsets : forall sched active l,
  Forall (eq 0%nat) sched ->
  exists sched' a l',
    window record_launch record_settle offsets sched active l
      = inr (sched', a, l')
    /\ Forall (eq 0%nat) sched'
    /\ l' ++ a = l ++ active ++ offsets.
Proof.
  induction offsets as [ | f rest IH]; cbn [window]; intros sched active l Hs.
  - exists sched, active, l. by rewrite app_nil_r.
  - destruct (oldest_first_step sched Hs) as [-> Htl].
    destruct (CONCURRENCY_LIMIT <=? length (active ++ [f]))%nat.
    + destruct (active ++ [f]) as [ | g a0] eqn:Ha; [by destruct active |].
      rewrite settle_record_oldest.
      destruct (IH (tl sched) a0 (l ++ [g]) Htl) as (sched' & a & l' & -> & ? & HP).
      exists sched', a, l'. split; [done | split; [done |]].
      rewrite HP, <- !app_assoc. f_equal. simpl.
      change (g :: a0 ++ rest) with ((g :: a0) ++ rest).
      by rewrite <- Ha, <- app_assoc.
    + destruct (IH sched (active ++ [f]) l Hs) as (sched' & a & l' & -> & ? & HP).
      exists sched', a, l'. split; [done | split; [done |]].
      by rewrite HP, <- !app_assoc.
Qed.

Lemma drain_record_fifo n : forall sched active l,
  Forall (eq 0%nat) sched -> length active = n ->
  drain record_settle n sched active l = inr (l ++ active).
Proof.
  induction n as [ | n IH]; cbn [drain]; intros sched active l Hs Hlen.
  - destruct active; [ | discriminate]. by rewrite app_nil_r.
  - destruct active as [ | g a]; [discriminate |].
    destruct (oldest_first_step sched Hs) as [-> Htl].
    rewrite settle_record_oldest, (IH _ _ _ Htl) by (simpl in Hlen; lia).
    by rewrite <- app_assoc.
Qed.

Lemma completion_fifo offsets sched :
  Forall (eq 0%nat) sched -> completion offsets sched = offsets.
Proof.
  intros Hs. unfold completion, pool.
  destruct (window_record_fifo offsets sched [] [] Hs)
    as (sched' & a & l' & -> & Hs' & HP).
  by rewrite (drain_record_fifo _ _ _ _ Hs' eq_refl).
Qed.

(** ** The crawl *)

Section CrawlFacts.

Variable domText : string -> string.
Variable net : Z -> nat -> Outcome.
Variable sig : Z -> nat -> bool.
Variable rnd : nat -> string.

(** A page that settles appends its hits, and nothing else, to
    [allHits]. *)
Lemma fetchBatch_allHits targetCount f st st' :
  fetchBatch net sig targetCount f st = inr st' ->
  allHits st' = allHits st ++ page_hits net sig f.
Proof.
  unfold fetchBatch, page_hits.
  destruct (snd (fetchWithRetry (net f) (sig f) 3))
    as [[ | | | ] | [status [ | total hit]]];
    intros [= <-]; simpl; by rewrite ?app_nil_r.
Qed.

(** [allHits] after the pool: the hits of the pages in the order in
    which their fetches settled. *)
Lemma pool_allHits targetCount offsets sched st st' :
  pool launchBatch (fetchBatch net sig targetCount) offsets sched st
    = inr st' ->
  allHits st' =
    allHits st ++ flat_map (page_hits net sig) (completion offsets sched).
Proof.
  intros H.
  set (R := fun (s : Acc) (l : list Z) =>
              allHits s
              = allHits st ++ flat_map (page_hits net sig) l).
  assert (Hlaunch : forall f s1 s2,
             R s1 s2 -> R (launchBatch f s1) (record_launch f s2))
    by (intros f s1 s2 HR; exact HR).
  assert (Hsettle : forall f s1 s1' s2,
             R s1 s2 -> fetchBatch net sig targetCount f s1 = inr s1' ->
             R s1' (s2 ++ [f])).
  { intros f s1 s1' s2 HR Hs. unfold R in *.
    rewrite (fetchBatch_allHits _ _ _ _ Hs), HR, flat_map_app. simpl.
    by rewrite app_nil_r, app_assoc. }
  assert (H0 : R st []) by (unfold R; simpl; by rewrite app_nil_r).
  destruct (pool_sim _ _ _ _ R Hlaunch Hsettle _ _ _ _ _ H0 H)
    as (l & Hl & HR).
  unfold completion. by rewrite Hl.
Qed.

(** A crawl that returns records has read its first page, and returns
    the normalised and filtered hits of the first page followed by those
    of the other pages in the order in which their fetches settled. *)
Lemma fetchDBLPData_returns p sched arts :
  outcome (fetchDBLPData domText net sig rnd p sched) = inr arts ->
  exists status total hit,
    snd (fetchWithRetry (net 0%Z) (sig 0%Z) 3)
      = inr (status, Parsed total hit)
    /\ arts =
       finish domText rnd p (max_results p)
         (hits_of hit ++
          flat_map (page_hits net sig)
            (completion (remaining total (hits_of hit) (max_results p))
               sched)).
Proof.
  unfold fetchDBLPData, remaining.
  destruct (String.eqb (Query.effective p) ""); [discriminate |].
  destruct (snd (fetchWithRetry (net 0%Z) (sig 0%Z) 3))
    as [[ | | | ] | [status [ | total hit]]]; try discriminate.
  cbv zeta.
  intros H. exists status, total, hit. split; [done |].
  destruct (Js.min (totalMatches_of total) (Some (max_results p)))
    as [targetCount | ].
  - destruct (Z.of_nat (length (hits_of hit)) <? targetCount)%Z.
    + match type of H with
      | context [pool ?l ?s ?o ?sc ?st] =>
          destruct (pool l s o sc st) as [[e st'] | st'] eqn:Hp
      end; [discriminate |].
      simpl in H. injection H as <-.
      by rewrite (pool_allHits _ _ _ _ _ Hp).
    + simpl in H. injection H as <-. by rewrite app_nil_r.
  - simpl in H. injection H as <-. by rewrite app_nil_r.
Qed.

End CrawlFacts.

(** *** The offsets of the remaining pages *)

Lemma offsets_from_bounds fuel : forall f t,
  Forall (fun x => (f <= x < t)%Z) (offsets_from fuel f t).
Proof.
  induction fuel as [ | n IH]; cbn [offsets_from]; intros f t; [constructor |].
  destruct (Z.ltb_spec f t) as [Hlt | _]; [ | constructor].
  constructor; [lia |].
  eapply Forall_impl; [apply IH |]. unfold BATCH_SIZE. simpl. lia.
Qed.

Lemma offsets_from_sorted fuel : forall f t,
  StronglySorted Z.lt (offsets_from fuel f t).
Proof.
  induction fuel as [ | n IH]; cbn [offsets_from]; intros f t; [constructor |].
  destruct (f <? t)%Z; [ | constructor].
  constructor; [apply IH |].
  eapply Forall_impl; [apply offsets_from_bounds |].
  unfold BATCH_SIZE. simpl. lia.
Qed.

Lemma offsets_from_complete fuel : forall f t (j : nat),
  (j < fuel)%nat -> (f + BATCH_SIZE * Z.of_nat j < t)%Z ->
  In (f + BATCH_SIZE * Z.of_nat j)%Z (offsets_from fuel f t).
Proof.
  unfold BATCH_SIZE.
  induction fuel as [ | n IH]; cbn [offsets_from]; intros f t j Hj Hlt; [lia |].
  destruct (Z.ltb_spec f t) as [_ | Hge]; [ | lia].
  destruct j as [ | j]; [left; lia | right].
  replace (f + 100 * Z.of_nat (S j))%Z with (f + 100 + 100 * Z.of_nat j)%Z
    by lia.
  unfold BATCH_SIZE. apply IH; lia.
Qed.

(** The loop of lines 142 to 144 yields, in ascending order, exactly the
    positive multiples of the page size below the target. *)
Lemma offsetsToFetch_spec (t : Z) :
  StronglySorted Z.lt (offsetsToFetch t)
  /\ forall x, In x (offsetsToFetch t) <->
               exists k : Z, (1 <= k)%Z /\ x = (BATCH_SIZE * k)%Z /\ (x < t)%Z.
Proof.
  split; [apply offsets_from_sorted |].
  intros x. split.
  - unfold offsetsToFetch. generalize (Z.to_nat t) as fuel.
    assert (Hgen : forall fuel (k : Z), (1 <= k)%Z ->
               In x (offsets_from fuel (BATCH_SIZE * k)%Z t) ->
               exists k : Z, (1 <= k)%Z /\ x = (BATCH_SIZE * k)%Z /\ (x < t)%Z).
    { induction fuel as [ | n IH]; cbn [offsets_from]; intros k Hk;
        [simpl; tauto |].
      destruct (Z.ltb_spec (BATCH_SIZE * k) t) as [Hlt | _]; [ | simpl; tauto].
      intros [<- | Hin]; [eauto |].
      apply (IH (k + 1)%Z); [lia |].
      by replace (BATCH_SIZE * (k + 1))%Z with (BATCH_SIZE * k + BATCH_SIZE)%Z
        by (unfold BATCH_SIZE; lia). }
    intros fuel Hin. apply (Hgen fuel 1%Z); [lia | exact Hin].
  - intros (k & Hk & -> & Hlt). unfold offsetsToFetch.
    replace (BATCH_SIZE * k)%Z
      with (BATCH_SIZE + BATCH_SIZE * Z.of_nat (Z.to_nat (k - 1)))%Z
      by (unfold BATCH_SIZE; lia).
    apply offsets_from_complete; unfold BATCH_SIZE in *; lia.
Qed.

Lemma remaining_sorted total firstHits maxR :
  StronglySorted Z.lt (remaining total firstHits maxR).
Proof.
  unfold remaining.
  destruct (Js.min _ _) as [t | ]; [ | constructor].
  destruct (_ <? _)%Z; [apply offsets_from_sorted | constructor].
Qed.

(** *** Identifiers of the returned records *)



Lemma filter_sublist {A} (f : A -> bool) (l : list A) :
  sublist (List.filter f l) l.
Proof.
  induction l as [ | x l IH]; simpl; [constructor |].
  destruct (f x); by constructor.
Qed.



(** *** Order of the returned records *)

Lemma page_hits_parsed net sig f status total hit :
  snd (fetchWithRetry (net f) (sig f) 3) = inr (status, Parsed total hit) ->
  page_hits net sig f = hits_of hit.
Proof. unfold page_hits. by intros ->. Qed.

(** C1, as stated, fails.  A source with 300 hits is crawled in three
    pages; the fetches for offsets 100 and 200 are in flight together and
    the one for offset 200 settles first.  The returned records are those
    of page 0, then those of page 200, then those of page 100. *)
Lemma C1_page_200_before_page_100 :
  exists arts,
    outcome (fetchDBLPData Sample.plain (Sample.source 300) Sample.never
               Sample.no_random (Sample.params 300 all) [1%nat]) = inr arts
    /\ map id arts = map pretty (seq 0 100 ++ seq 200 100 ++ seq 100 100)
    /\ map id arts <> map pretty (seq 0 300).
Proof.
  exists (finish Sample.plain Sample.no_random (Sample.params 300 all) 300
            (Sample.page 0 100 ++ Sample.page 200 100 ++ Sample.page 100 100)).
  split; [vm_compute; reflexivity |].
  split; [vm_compute; reflexivity |].
  vm_compute. discriminate.
Qed.

(** C1, amended.  The records returned by a crawl are the normalised and
    filtered hits of the first page followed by the hits of the other
    pages in the order in which their fetches settled, each page once;
    that order is the ascending offset order in which the pages were
    requested when the fetches settle oldest first, and some other
    arrangement of the same pages otherwise. *)
Theorem C1_records_follow_completion_order
  (domText : string -> string) (net : Z -> nat -> Outcome)
  (sig : Z -> nat -> bool) (rnd : nat -> string)
  (p : SearchParams) (sched : list nat) (arts : list Article) :
  outcome (fetchDBLPData domText net sig rnd p sched) = inr arts ->
  exists status total hit,
    snd (fetchWithRetry (net 0%Z) (sig 0%Z) 3)
      = inr (status, Parsed total hit)
    /\ let offsets := remaining total (hits_of hit) (max_results p) in
       let order := completion offsets sched in
       arts = finish domText rnd p (max_results p)
                (flat_map (page_hits net sig) (0%Z :: order))
       /\ order ≡ₚ offsets
       /\ StronglySorted Z.lt offsets
       /\ (Forall (eq 0%nat) sched -> order = offsets).
Proof.
  intros H.
  destruct (fetchDBLPData_returns _ _ _ _ _ _ _ H)
    as (status & total & hit & Hfirst & ->).
  exists status, total, hit. split; [exact Hfirst |].
  cbv zeta. split; [ | split; [ | split]].
  - cbn [flat_map]. by rewrite (page_hits_parsed _ _ _ _ _ _ Hfirst).
  - apply completion_perm.
  - apply remaining_sorted.
  - apply completion_fifo.
Qed.

Lemma C1_records_follow_completion_order_witness :
  outcome (fetchDBLPData Sample.plain (Sample.source 300) Sample.never
             Sample.no_random (Sample.params 300 all) [1%nat])
  = inr (finish Sample.plain Sample.no_random (Sample.params 300 all) 300
           (Sample.page 0 100 ++ Sample.page 200 100 ++ Sample.page 100 100))
  /\ exists status total hit,
       snd (fetchWithRetry (Sample.source 300 0%Z) (Sample.never 0%Z) 3)
         = inr (status, Parsed total hit)
       /\ let offsets :=
            remaining total (hits_of hit)
              (max_results (Sample.params 300 all)) in
          let order := completion offsets [1%nat] in
          finish Sample.plain Sample.no_random (Sample.params 300 all) 300
            (Sample.page 0 100 ++ Sample.page 200 100 ++ Sample.page 100 100)
          = finish Sample.plain Sample.no_random (Sample.params 300 all)
              (max_results (Sample.params 300 all))
              (flat_map (page_hits (Sample.source 300) Sample.never)
                 (0%Z :: order))
          /\ order ≡ₚ offsets
          /\ StronglySorted Z.lt offsets
          /\ (Forall (eq 0%nat) [1%nat] -> order = offsets).
Proof.
  assert (H : outcome (fetchDBLPData Sample.plain (Sample.source 300)
                         Sample.never Sample.no_random
                         (Sample.params 300 all) [1%nat])
              = inr (finish Sample.plain Sample.no_random
                       (Sample.params 300 all) 300
                       (Sample.page 0 100 ++ Sample.page 200 100
                        ++ Sample.page 100 100)))
    by (vm_compute; reflexivity).
  split; [exact H |].
  exact (C1_records_follow_completion_order _ _ _ _ _ _ _ H).
Defined.

(** *** Duplicates *)


(** The hits that a successful crawl has accumulated are the hits of the
    requested pages, in some order of the pages after the first. *)
Lemma fetchDBLPData_hits domText net sig rnd p sched arts :
  outcome (fetchDBLPData domText net sig rnd p sched) = inr arts ->
  exists hits,
    arts = finish domText rnd p (max_results p) hits
    /\ hits ≡ₚ flat_map (page_hits net sig) (requested_pages net sig p).
Proof.
  intros H.
  destruct (fetchDBLPData_returns _ _ _ _ _ _ _ H)
    as (status & total & hit & Hfirst & ->).
  eexists. split; [reflexivity |].
  unfold requested_pages. rewrite Hfirst. cbn [flat_map].
  rewrite (page_hits_parsed _ _ _ _ _ _ Hfirst).
  apply Permutation_app_head, Permutation_flat_map, completion_perm.
Qed.



(** *** The target of a crawl *)

(** C2: the code departs from the claim on every first page without a
    usable [@total].  [totalMatches] keeps its initial value 0, so that
    [targetCount], the minimum of [totalMatches] and [maxResults], is at
    most 0 and the test [allHits.length < targetCount] fails: no other
    page is requested and the crawl returns the hits of the first page.
    Only the [effectiveTotal] of the first progress call falls back on
    [maxResults]. *)
Theorem C2_without_total_only_first_page_is_fetched
  (domText : string -> string) (net : Z -> nat -> Outcome)
  (sig : Z -> nat -> bool) (rnd : nat -> string)
  (p : SearchParams) (sched : list nat)
  (status : Z) (total : option string) (hit : HitField) :
  Query.effective p <> "" ->
  snd (fetchWithRetry (net 0%Z) (sig 0%Z) 3)
    = inr (status, Parsed total hit) ->
  Js.truthy total = false ->
  fetchDBLPData domText net sig rnd p sched
  = {| outcome := inr (finish domText rnd p (max_results p) (hits_of hit));
       observed := [Launch 0;
                    Progress (Z.of_nat (length (hits_of hit)))
                      (max_results p)] |}.
Proof.
  intros Hq Hfirst Htotal. unfold fetchDBLPData.
  destruct (String.eqb_spec (Query.effective p) "") as [? | _]; [done |].
  rewrite Hfirst. cbv zeta.
  unfold totalMatches_of. rewrite Htotal.
  unfold effectiveTotal. cbn [Js.ltb Js.min].
  rewrite Z.ltb_irrefl.
  destruct (Z.ltb_spec (Z.of_nat (length (hits_of hit)))
              (Z.min 0 (max_results p))) as [Hlt | _]; [lia | reflexivity].
Qed.

Lemma C2_without_total_only_first_page_is_fetched_witness :
  Query.effective (Sample.params 300 all) <> ""
  /\ snd (fetchWithRetry (Sample.source_without_total 300 0%Z)
            (Sample.never 0%Z) 3)
     = inr (200%Z, Parsed None (HitArray (Sample.page 0 100)))
  /\ Js.truthy None = false
  /\ fetchDBLPData Sample.plain (Sample.source_without_total 300)
       Sample.never Sample.no_random (Sample.params 300 all) []
     = {| outcome :=
            inr (finish Sample.plain Sample.no_random (Sample.params 300 all)
                   (max_results (Sample.params 300 all))
                   (hits_of (HitArray (Sample.page 0 100))));
          observed :=
            [Launch 0;
             Progress
               (Z.of_nat (length (hits_of (HitArray (Sample.page 0 100)))))
               (max_results (Sample.params 300 all))] |}.
Proof.
  assert (Hq : Query.effective (Sample.params 300 all) <> "")
    by (vm_compute; discriminate).
  assert (Hfirst :
    snd (fetchWithRetry (Sample.source_without_total 300 0%Z)
           (Sample.never 0%Z) 3)
    = inr (200%Z, Parsed None (HitArray (Sample.page 0 100))))
    by (vm_compute; reflexivity).
  split; [exact Hq | split; [exact Hfirst | split; [reflexivity |]]].
  exact (C2_without_total_only_first_page_is_fetched
           Sample.plain (Sample.source_without_total 300) Sample.never
           Sample.no_random (Sample.params 300 all) [] 200%Z None
           (HitArray (Sample.page 0 100)) Hq Hfirst eq_refl).
Defined.

(** *** Progress *)

(** What holds of the state when the pool starts, and is kept by every
    launch and every settlement, holds of the state with which the pool
    ends, whether it ends by an error or not. *)
Section PoolInvariant.

Context {St E : Type}.
Variable launch : Z -> St -> St.
Variable settle_one : Z -> St -> E * St + St.
Variable Inv : St -> Prop.

Hypothesis launch_inv : forall f s, Inv s -> Inv (launch f s).
Hypothesis settle_inv :
  forall f s, Inv s ->
    match settle_one f s with
    | inl (_, s') => Inv s'
    | inr s' => Inv s'
    end.

Lemma settle_keeps k active s :
  Inv s ->
  match settle settle_one k active s with
  | inl (_, s') => Inv s'
  | inr (_, s') => Inv s'
  end.
Proof.
  intros Hs. unfold settle. cbv zeta.
  destruct (active !! (k mod length active)%nat) as [f | ]; [ | exact Hs].
  specialize (settle_inv f s Hs).
  by destruct (settle_one f s) as [[e s'] | s'].
Qed.

Lemma window_keeps offsets : forall sched active s,
  Inv s ->
  match window launch settle_one offsets sched active s with
  | inl (_, s') => Inv s'
  | inr (_, _, s') => Inv s'
  end.
Proof.
  induction offsets as [ | f rest IH]; cbn [window]; intros sched active s Hs;
    [exact Hs |].
  destruct (CONCURRENCY_LIMIT <=? length (active ++ [f]))%nat.
  - pose proof (settle_keeps (hd O sched) (active ++ [f]) _
                  (launch_inv f s Hs)) as Hk.
    destruct (settle settle_one (hd O sched) (active ++ [f]) (launch f s))
      as [[e s'] | [a s']]; [exact Hk | by apply IH].
  - by apply IH, launch_inv.
Qed.

Lemma drain_keeps n : forall sched active s,
  Inv s ->
  match drain settle_one n sched active s with
  | inl (_, s') => Inv s'
  | inr s' => Inv s'
  end.
Proof.
  induction n as [ | n IH]; cbn [drain]; intros sched active s Hs;
    [exact Hs |].
  pose proof (settle_keeps (hd O sched) active s Hs) as Hk.
  destruct (settle settle_one (hd O sched) active s)
    as [[e s'] | [a s']]; [exact Hk | by apply IH].
Qed.

Lemma pool_keeps offsets sched s :
  Inv s ->
  match pool launch settle_one offsets sched s with
  | inl (_, s') => Inv s'
  | inr s' => Inv s'
  end.
Proof.
  intros Hs. unfold pool.
  pose proof (window_keeps offsets sched [] s Hs) as Hw.
  destruct (window launch settle_one offsets sched [] s)
    as [[e s'] | [[sched' a] s']]; [exact Hw | by apply drain_keeps].
Qed.

End PoolInvariant.

Lemma progress_calls_app (a b : list CrawlEvent) :
  progress_calls (a ++ b) = progress_calls a ++ progress_calls b.
Proof. apply flat_map_app. Qed.

Lemma launchBatch_progress len eff target f st :
  progress_invariant len eff target st ->
  progress_invariant len eff target (launchBatch f st).
Proof.
  intros (rest & Hcalls & Hrest). exists rest. split; [ | exact Hrest].
  cbn [launchBatch events]. rewrite progress_calls_app, Hcalls.
  apply app_nil_r.
Qed.

Lemma fetchBatch_progress net sig (len eff target : Z) f st :
  (len < target)%Z ->
  progress_invariant len eff target st ->
  match fetchBatch net sig target f st with
  | inl (_, st') => progress_invariant len eff target st'
  | inr st' => progress_invariant len eff target st'
  end.
Proof.
  intros Hlt Hst. unfold fetchBatch.
  destruct (snd (fetchWithRetry (net f) (sig f) 3))
    as [[ | | | ] | [status [ | total hit]]]; try exact Hst.
  destruct Hst as (rest & Hcalls & Hall & Hsorted & Hlen).
  set (hits := allHits st ++ hits_of hit).
  assert (Hgrow : (Z.of_nat (length (allHits st))
                   <= Z.of_nat (length hits))%Z).
  { unfold hits. rewrite length_app. lia. }
  exists (rest ++ [(Z.min (Z.of_nat (length hits)) target, target)]).
  cbn [allHits events]. split; [ | split; [ | split]].
  - rewrite progress_calls_app, Hcalls. reflexivity.
  - apply Forall_app. split.
    + eapply Forall_impl; [exact Hall |]. intros [x y]. simpl. lia.
    + constructor; [simpl; lia | constructor].
  - rewrite map_app. apply StronglySorted_app_2.
    + intros x1 x2 Hx1 Hx2.
      apply list_elem_of_In, in_map_iff in Hx1 as ([x y] & <- & Hin).
      apply list_elem_of_In in Hin.
      apply (proj1 (Forall_forall _ _) Hall) in Hin. simpl in Hin.
      apply list_elem_of_singleton in Hx2 as ->. simpl. lia.
    + exact Hsorted.
    + repeat constructor.
  - lia.
Qed.

Lemma progress_invariant_calls len eff target st :
  progress_invariant len eff target st ->
  StronglySorted Z.le (map fst (progress_calls (events st)))
  /\ Forall (fun call => (fst call <= snd call)%Z)
       (tl (progress_calls (events st))).
Proof.
  intros (rest & -> & Hall & Hsorted & _). simpl. split.
  - constructor; [exact Hsorted |].
    apply Forall_forall. intros x Hx.
    apply list_elem_of_In, in_map_iff in Hx as ([a b] & <- & Hin).
    apply list_elem_of_In in Hin.
    apply (proj1 (Forall_forall _ _) Hall) in Hin. simpl in *. lia.
  - eapply Forall_impl; [exact Hall |]. intros [a b]. simpl. lia.
Qed.

(** The part of the progress guarantee that holds of every crawl: the
    reported [fetchedCount] never decreases, and every call after the
    first one reports a [fetchedCount] that is at most its
    [targetCount]. *)
Lemma progress_monotone_and_bounded_after_first
  (domText : string -> string) (net : Z -> nat -> Outcome)
  (sig : Z -> nat -> bool) (rnd : nat -> string)
  (p : SearchParams) (sched : list nat) :
  let calls :=
    progress_calls (observed (fetchDBLPData domText net sig rnd p sched)) in
  StronglySorted Z.le (map fst calls)
  /\ Forall (fun call => (fst call <= snd call)%Z) (tl calls).
Proof.
  cbv zeta. unfold fetchDBLPData.
  destruct (String.eqb (Query.effective p) "");
    [split; constructor |].
  destruct (snd (fetchWithRetry (net 0%Z) (sig 0%Z) 3))
    as [[ | | | ] | [status [ | total hit]]];
    try (split; constructor).
  cbv zeta.
  set (len := Z.of_nat (length (hits_of hit))).
  set (eff := effectiveTotal (totalMatches_of total) (max_results p)).
  set (st0 := {| allHits := hits_of hit;
                 events := [Launch 0; Progress len eff] |}).
  assert (Hone : StronglySorted Z.le (map fst (progress_calls (events st0)))
                 /\ Forall (fun call => (fst call <= snd call)%Z)
                      (tl (progress_calls (events st0))))
    by (split; repeat constructor).
  destruct (Js.min (totalMatches_of total) (Some (max_results p)))
    as [target | ]; [ | exact Hone].
  destruct (Z.ltb_spec len target) as [Hlt | _]; [ | exact Hone].
  assert (H0 : progress_invariant len eff target st0).
  { exists []. simpl.
    split; [reflexivity | split; [constructor | split; [constructor |]]].
    unfold len. lia. }
  pose proof (pool_keeps launchBatch (fetchBatch net sig target)
                (progress_invariant len eff target)
                (launchBatch_progress len eff target)
                (fun f s H => fetchBatch_progress net sig len eff target f s
                                Hlt H)
                (offsetsToFetch target) sched st0 H0) as Hpool.
  match goal with
  | |- context [pool ?l ?s ?o ?sc ?st] =>
      destruct (pool l s o sc st) as [[e st'] | st']
  end; simpl; by eapply progress_invariant_calls.
Qed.

(** C3: the code departs from the claim on the callback that follows the
    first page.  With [maxResults] 50 and a source that reports 1000
    matches, the first page holds 100 hits and the callback is invoked
    with [fetchedCount] 100 and [targetCount] 50: the first call passes
    [allHits.length] as it is, where the calls of [fetchBatch] pass its
    minimum with [targetCount]. *)
Theorem C3_first_progress_exceeds_target (sched : list nat) :
  progress_calls
    (observed (fetchDBLPData Sample.plain (Sample.source 1000) Sample.never
                 Sample.no_random (Sample.params 50 all) sched))
  = [(100%Z, 50%Z)]
  /\ ~ Forall (fun call => (fst call <= snd call)%Z)
        (progress_calls
           (observed (fetchDBLPData Sample.plain (Sample.source 1000)
                        Sample.never Sample.no_random (Sample.params 50 all)
                        sched))).
Proof.
  assert (H : progress_calls
                (observed (fetchDBLPData Sample.plain (Sample.source 1000)
                             Sample.never Sample.no_random
                             (Sample.params 50 all) sched))
              = [(100%Z, 50%Z)]) by (vm_compute; reflexivity).
  split; [exact H |].
  rewrite H. intros Hall. inversion Hall as [ | ? ? Hle _]. simpl in Hle. lia.
Qed.

(** *** Filters *)

(** A record whose year is not a number passes the final filter, whatever
    the year range and the venue-type filter are. *)
Lemma keep_unparseable_year (p : SearchParams) (a : Article) :
  Js.parseInt (year a) = None -> keep p a = true.
Proof. unfold keep. by intros ->. Qed.

(** C8: the code departs from the claim on a record without a numeric
    year.  The predicate of the final [filter] returns [true] as soon as
    [parseInt] of the year is [NaN], before the venue type is looked at:
    under the filter [journal], a conference paper without a year is
    returned. *)
Theorem C8_undated_conference_paper_passes_journal_filter
  (domText : string -> string) (rnd : nat -> string) (sched : list nat) :
  exists a,
    outcome (fetchDBLPData domText (Sample.single Sample.undated)
               Sample.never rnd (Sample.params 50 journal) sched) = inr [a]
    /\ typeFilter (Sample.params 50 journal) = journal
    /\ venueType a = Conference
    /\ year a = "".
Proof.
  eexists. split; [vm_compute; reflexivity |].
  split; [reflexivity | split; reflexivity].
Qed.

(** ** Title analytics *)

(** *** Sorting *)

Section SortFacts.

Context {A : Type} (lt : A -> A -> bool).

Lemma insert_sorted_perm x l : Js.insert_sorted lt x l ≡ₚ x :: l.
Proof.
  induction l as [ | y r IH]; simpl; [done |].
  destruct (lt y x); [ | done].
  by rewrite IH, Permutation_swap.
Qed.

Lemma sort_perm l : Js.sort lt l ≡ₚ l.
Proof.
  induction l as [ | x l IH]; simpl; [done |].
  by rewrite insert_sorted_perm, IH.
Qed.

(** [le a b] says that [b] is not strictly below [a]. *)
Let le (a b : A) : Prop := lt b a = false.

Hypothesis lt_asym : forall a b, lt a b = true -> lt b a = false.
Hypothesis le_trans : forall a b c, le a b -> le b c -> le a c.

Lemma insert_sorted_sorted x l :
  StronglySorted le l -> StronglySorted le (Js.insert_sorted lt x l).
Proof.
  induction 1 as [ | y r Hr IH Hy]; simpl; [repeat constructor |].
  destruct (lt y x) eqn:Hyx.
  - constructor; [exact IH |].
    rewrite insert_sorted_perm. constructor; [ | exact Hy].
    by apply lt_asym.
  - constructor; [by constructor |].
    constructor; [exact Hyx |].
    eapply Forall_impl; [exact Hy |]. intros z Hz.
    by apply (le_trans x y z).
Qed.

Lemma sort_sorted l : StronglySorted le (Js.sort lt l).
Proof.
  induction l as [ | x l IH]; simpl; [constructor |].
  by apply insert_sorted_sorted.
Qed.

End SortFacts.

(** The order of [sort()] on strings. *)
Lemma string_ltb_asym (a b : string) :
  String.ltb a b = true -> String.ltb b a = false.
Proof.
  unfold String.ltb. rewrite (String.compare_antisym a b).
  by destruct (String.compare b a).
Qed.

Lemma string_not_ltb_le (a b : string) :
  String.ltb b a = false <-> String.le a b.
Proof.
  unfold String.le, String.leb, String.ltb.
  rewrite (String.compare_antisym a b).
  destruct (String.compare b a); simpl; split; intros H; done.
Qed.

Lemma string_le_neq_ltb (a b : string) :
  String.le a b -> a <> b -> String.ltb a b = true.
Proof.
  unfold String.le, String.leb, String.ltb. intros Hle Hne.
  destruct (String.compare a b) eqn:Hc; [ | done | done].
  by apply String.compare_eq_iff in Hc.
Qed.

Lemma sort_strings_sorted (l : list string) :
  NoDup l ->
  StronglySorted (fun a b => String.ltb a b = true) (Js.sort String.ltb l).
Proof.
  intros Hnd.
  assert (Hs : StronglySorted (fun a b => String.ltb b a = false)
                 (Js.sort String.ltb l)).
  { apply sort_sorted; [exact string_ltb_asym |].
    intros a b c Hab Hbc. apply string_not_ltb_le.
    apply string_not_ltb_le in Hab, Hbc. by etrans. }
  assert (Hnd' : NoDup (Js.sort String.ltb l)) by by rewrite sort_perm.
  induction Hs as [ | x r Hr IH Hx]; [constructor |].
  apply NoDup_cons in Hnd' as [Hnotin Hnd'].
  constructor; [by apply IH |].
  apply Forall_forall. intros y Hy.
  apply string_le_neq_ltb.
  - apply string_not_ltb_le. by apply (proj1 (Forall_forall _ _) Hx).
  - intros ->. by apply Hnotin.
Qed.

(** *** Sets of strings *)

Lemma includes_In (l : list string) (x : string) :
  includes l x = true <-> In x l.
Proof.
  unfold includes. rewrite existsb_exists. split.
  - intros (y & Hy & ->%String.eqb_eq). exact Hy.
  - intros Hx. exists x. split; [exact Hx | apply String.eqb_refl].
Qed.

Lemma set_from_spec (l : list string) : forall seen,
  NoDup (set_from seen l)
  /\ forall x, In x (set_from seen l) <-> In x l /\ ~ In x seen.
Proof.
  induction l as [ | y r IH]; simpl; intros seen.
  - split; [constructor | tauto].
  - destruct (includes seen y) eqn:Hy.
    + apply includes_In in Hy.
      destruct (IH seen) as [Hnd Hin]. split; [exact Hnd |].
      intros x. rewrite Hin. split; [tauto |].
      intros [[<- | Hx] Hns]; tauto.
    + assert (Hy' : ~ In y seen)
        by (rewrite <- includes_In; congruence).
      destruct (IH (y :: seen)) as [Hnd Hin]. split.
      * apply NoDup_cons. split; [ | exact Hnd].
        rewrite list_elem_of_In, Hin. simpl. tauto.
      * intros x. simpl. rewrite Hin. simpl. split.
        -- intros [<- | [Hx Hns]]; tauto.
        -- intros [[<- | Hx] Hns]; [tauto |].
           destruct (string_dec y x) as [<- | Hne]; tauto.
Qed.

Lemma new_Set_spec (l : list string) :
  NoDup (new_Set l) /\ forall x, In x (new_Set l) <-> In x l.
Proof.
  destruct (set_from_spec l []) as [Hnd Hin]. split; [exact Hnd |].
  intros x. unfold new_Set. rewrite Hin. simpl. tauto.
Qed.

(** *** The rows of [generateTrends] *)

Lemma count_loop {B} (P : B -> bool) (l : list B) : forall n,
  foldl (fun count a => if P a then S count else count) n l
  = (n + length (List.filter P l))%nat.
Proof.
  induction l as [ | a l IH]; simpl; intros n; [lia |].
  rewrite IH. destruct (P a); simpl; lia.
Qed.

Lemma filter_both {B} (P Q : B -> bool) (l : list B) :
  List.filter Q (List.filter P l) = List.filter (fun a => P a && Q a) l.
Proof.
  induction l as [ | a l IH]; simpl; [done |].
  destruct (P a); simpl; [ | exact IH].
  destruct (Q a); by rewrite IH.
Qed.

(** The count that a row holds for a term is the number of records of
    the year whose tokenized title contains the term. *)
Lemma count_term_year (articles : list Article) (y kw : string) :
  count_term (List.filter (fun a => String.eqb (year a) y) articles) kw
  = length (List.filter
              (fun a => String.eqb (year a) y
                        && includes (tokenize (title a)) kw) articles).
Proof. unfold count_term. by rewrite count_loop, filter_both. Qed.

Lemma entry_lookup (c : string -> nat) (terms : list string) :
  forall (entry : gmap string Cell) (kw : string),
    foldl (fun e k => assign k (Num (c k)) e) entry terms !! kw
    = if includes terms kw && negb (String.eqb kw "__proto__")
      then Some (Num (c kw)) else entry !! kw.
Proof.
  induction terms as [ | k r IH]; intros entry kw; [done |].
  cbn [foldl]. rewrite IH. unfold includes. cbn [existsb].
  fold (includes r kw).
  destruct (String.eqb_spec kw "__proto__") as [-> | Hproto].
  - rewrite !andb_false_r. unfold assign.
    destruct (String.eqb_spec k "__proto__") as [-> | Hk]; [done |].
    by apply lookup_insert_ne.
  - rewrite !andb_true_r.
    destruct (includes r kw); [by rewrite orb_true_r |].
    rewrite orb_false_r. unfold assign.
    destruct (String.eqb_spec kw k) as [-> | Hne].
    + destruct (String.eqb_spec k "__proto__") as [-> | _]; [done |].
      apply lookup_insert_eq.
    + destruct (String.eqb_spec k "__proto__") as [-> | _]; [done |].
      by apply lookup_insert_ne.
Qed.

(** A row holds the count of every requested term but [__proto__], under
    which it has no property of its own. *)
Lemma trend_row_spec (articles : list Article) (terms : list string)
  (y : string) :
  (forall kw, In kw terms -> kw <> "__proto__" ->
     trend_row articles terms y !! kw
     = Some (Num (length
                    (List.filter
                       (fun a => String.eqb (year a) y
                                 && includes (tokenize (title a)) kw)
                       articles))))
  /\ (~ In "year" terms ->
      trend_row articles terms y !! "year" = Some (Str y))
  /\ trend_row articles terms y !! "__proto__" = None.
Proof.
  unfold trend_row. split; [ | split].
  - intros kw Hkw Hproto. rewrite entry_lookup.
    apply includes_In in Hkw. rewrite Hkw.
    destruct (String.eqb_spec kw "__proto__") as [-> | _]; [done |].
    by rewrite count_term_year.
  - intros Hno. rewrite entry_lookup.
    destruct (includes terms "year") eqn:Hin.
    + by apply includes_In in Hin.
    + apply lookup_singleton_eq.
  - rewrite entry_lookup, andb_false_r. by apply lookup_singleton_ne.
Qed.

Lemma years_of_spec (articles : list Article) :
  StronglySorted (fun a b => String.ltb a b = true) (years_of articles)
  /\ forall y, In y (years_of articles) <->
               exists a, In a articles /\ year a = y.
Proof.
  unfold years_of.
  destruct (new_Set_spec (map year articles)) as [Hnd Hin]. split.
  - by apply sort_strings_sorted.
  - intros y.
    assert (Hp := sort_perm String.ltb (new_Set (map year articles))).
    split.
    + intros Hy. apply (Permutation_in _ Hp), Hin, in_map_iff in Hy
        as (a & Ha & Hain). eauto.
    + intros (a & Hain & <-).
      apply (Permutation_in _ (Permutation_sym Hp)), Hin, in_map_iff. eauto.
Qed.

(** When [year] is one of the terms, the count of that term takes the
    place of the year in the row. *)
Lemma trend_row_year_term (articles : list Article) (terms : list string)
  (y : string) :
  In "year" terms ->
  exists n, trend_row articles terms y !! "year" = Some (Num n).
Proof.
  intros Hin. eexists.
  by apply (proj1 (trend_row_spec articles terms y)).
Qed.

(** What [generateTrends] does get right: one row per distinct year of
    the records, the rows in the ascending order of the year strings by
    code units (so ["10000"] comes before ["999"]); the row of a year
    holds, for each requested term other than [__proto__], the number of
    records of that year whose tokenized title contains the term.  The
    three records of the example and the term [graph] give the counts 2
    for 2020 and 0 for 2021.  (The [year] property of a row holds the year
    unless [year] is itself one of the terms, in which case the count of
    that term is stored under the same name.) *)
Lemma generateTrends_rows_by_year
  (articles : list Article) (terms : list string) :
  StronglySorted (fun a b => String.ltb a b = true) (years_of articles)
  /\ (forall y, In y (years_of articles) <->
                exists a, In a articles /\ year a = y)
  /\ Forall2
       (fun y (row : gmap string Cell) =>
          (forall kw, In kw terms -> kw <> "__proto__" ->
             row !! kw
             = Some (Num (length
                            (List.filter
                               (fun a => String.eqb (year a) y
                                         && includes (tokenize (title a)) kw)
                               articles))))
          /\ (~ In "year" terms -> row !! "year" = Some (Str y)))
       (years_of articles) (generateTrends articles terms)
  /\ years_of [ Sample.paper "1" "2021" "Graph Databases";
                 Sample.paper "2" "999" "Graph Databases";
                 Sample.paper "3" "10000" "Graph Databases";
                 Sample.paper "4" "2021" "Neural Compression" ]
     = ["10000"; "2021"; "999"]
  /\ generateTrends Sample.trend_records ["graph"]
     = [ <["graph" := Num 2]> {["year" := Str "2020"]};
         <["graph" := Num 0]> {["year" := Str "2021"]} ].
Proof.
  destruct (years_of_spec articles) as [Hsorted Hin].
  split; [exact Hsorted | split; [exact Hin | split; [ | split]]].
  - unfold generateTrends. clear Hsorted Hin.
    induction (years_of articles) as [ | y ys IH]; simpl; constructor.
    + destruct (trend_row_spec articles terms y) as (Hc & Hy & _).
      by split.
    + exact IH.
  - reflexivity.
  - vm_compute. reflexivity.
Qed.

(** C9: the code departs from the claim on the term [__proto__].
    [generateTrends] writes [entry[kw] = count] for every term, but under
    that name the assignment runs the setter that [entry] inherits from
    [Object.prototype], which drops a number: whatever the records and the
    terms, no row has a property of its own named [__proto__].  For the
    one record of 2020 titled [Detecting __proto__ pollution] and the
    term list [[__proto__]], the tokenized title contains the term, so
    the count of the year is 1, and the row returned is [{year: 2020}]
    alone. *)
Theorem C9_count_of_proto_term_is_not_stored
  (articles : list Article) (terms : list string) :
  Forall (fun row : KeywordTrend => row !! "__proto__" = None)
    (generateTrends articles terms)
  /\ tokenize "Detecting __proto__ pollution"
     = ["detecting"; "__proto__"; "pollution"]
  /\ length
       (List.filter
          (fun a => String.eqb (year a) "2020"
                    && includes (tokenize (title a)) "__proto__")
          [Sample.paper "1" "2020" "Detecting __proto__ pollution"])
     = 1%nat
  /\ generateTrends
       [Sample.paper "1" "2020" "Detecting __proto__ pollution"]
       ["__proto__"]
     = [ {["year" := Str "2020"]} ].
Proof.
  split; [ | split; [ | split]].
  - unfold generateTrends.
    induction (years_of articles) as [ | y ys IH]; simpl; constructor.
    + apply trend_row_spec.
    + exact IH.
  - vm_compute. reflexivity.
  - vm_compute. reflexivity.
  - vm_compute. reflexivity.
Qed.

(** *** Similarity scores

    The comparisons that the model makes on the integers of a score are
    the comparisons of the real values of the scores. *)

Lemma den2_pos (s : Score) : (0 < INR (den2 s))%R.
Proof. apply lt_0_INR. unfold den2. destruct (norm s); simpl; lia. Qed.

Lemma score_value_den2 (s : Score) :
  score_value s = (INR (overlap s) / sqrt (INR (den2 s)))%R.
Proof.
  unfold score_value, den2. cbv zeta.
  destruct (norm s) as [ | n]; cbn [Nat.eqb].
  - cbn [INR]. rewrite sqrt_0, sqrt_1.
    by destruct (Req_dec_T 0 0).
  - destruct (Req_dec_T (sqrt (INR (S n))) 0) as [H | H]; [ | reflexivity].
    apply sqrt_eq_0 in H; [ | apply pos_INR].
    pose proof (lt_0_INR (S n) ltac:(lia)). lra.
Qed.

Lemma score_value_nonneg (s : Score) : (0 <= score_value s)%R.
Proof.
  rewrite score_value_den2.
  apply Rle_mult_inv_pos; [apply pos_INR |].
  apply sqrt_lt_R0, den2_pos.
Qed.

Lemma score_value_square (s : Score) :
  Rsqr (score_value s)
  = (INR (overlap s * overlap s) / INR (den2 s))%R.
Proof.
  rewrite score_value_den2, Rsqr_div', Rsqr_sqrt, mult_INR.
  - reflexivity.
  - left. apply den2_pos.
Qed.

Lemma cross_multiply (p q a b : R) :
  (0 < a)%R -> (0 < b)%R -> (p / a < q / b)%R <-> (p * b < q * a)%R.
Proof.
  intros Ha Hb.
  assert (Hab : (0 < a * b)%R) by (apply Rmult_lt_0_compat; lra).
  replace (p * b)%R with (p / a * (a * b))%R by (field; lra).
  replace (q * a)%R with (q / b * (a * b))%R by (field; lra).
  split.
  - intros H. by apply Rmult_lt_compat_r.
  - intros H. by apply Rmult_lt_reg_r in H.
Qed.

Lemma score_ltb_value (a b : Score) :
  score_ltb a b = true <-> (score_value a < score_value b)%R.
Proof.
  unfold score_ltb. rewrite Nat.ltb_lt.
  transitivity (Rsqr (score_value a) < Rsqr (score_value b))%R.
  - rewrite !score_value_square.
    rewrite cross_multiply by apply den2_pos.
    rewrite <- !mult_INR. split; [apply lt_INR | apply INR_lt].
  - split.
    + intros H. apply Rsqr_incrst_0; auto using score_value_nonneg.
    + intros H. apply Rsqr_incrst_1; auto using score_value_nonneg.
Qed.

Lemma score_value_unit : score_value {| overlap := 1; norm := 1 |} = 1%R.
Proof. rewrite score_value_den2. simpl. rewrite sqrt_1. field. Qed.

Lemma score_value_tenth :
  score_value {| overlap := 1; norm := 100 |} = (1 / 10)%R.
Proof.
  rewrite score_value_den2. unfold den2. cbn [norm overlap Nat.eqb].
  replace (INR 100) with (Rsqr 10).
  - rewrite sqrt_Rsqr by lra. simpl. reflexivity.
  - rewrite INR_IZR_INZ. change (Z.of_nat 100) with 100%Z. unfold Rsqr. lra.
Qed.

Lemma above_one_value (s : Score) :
  above_one s = true <-> (1 < score_value s)%R.
Proof.
  rewrite <- score_value_unit, <- score_ltb_value.
  unfold above_one, score_ltb. cbn [overlap norm den2 Nat.eqb].
  rewrite !Nat.ltb_lt. lia.
Qed.

Lemma above_threshold_value (s : Score) :
  above_threshold s = true <-> (1 / 10 < score_value s)%R.
Proof.
  rewrite <- score_value_tenth, <- score_ltb_value.
  unfold above_threshold, score_ltb. cbn [overlap norm den2 Nat.eqb].
  rewrite !Nat.ltb_lt. lia.
Qed.

(** C10.  A score of [findSimilarArticles] can exceed 1.  The target
    title [Fuzzing] has one term; the candidate title
    [Fuzzing the fuzzing engine] has three tokens, two of which are that
    term.  The overlap counts both occurrences, so the candidate is
    returned with overlap 2 and norm 1 * 3: the square of the overlap is
    above the norm, and the score 2 / sqrt 3 is above 1. *)
Theorem C10_similarity_score_exceeds_one :
  let target := Sample.paper "1" "2019" "Fuzzing" in
  let cand := Sample.paper "2" "2021" "Fuzzing the fuzzing engine" in
  new_Set (tokenize (title target)) = ["fuzzing"]
  /\ tokenize (title cand) = ["fuzzing"; "fuzzing"; "engine"]
  /\ exists r : SimilarityResult,
       findSimilarArticles target [cand] 5 = [r]
       /\ article r = cand
       /\ sharedTerms r = ["fuzzing"; "fuzzing"]
       /\ overlap (score r) = length (sharedTerms r)
       /\ norm (score r)
          = (length (new_Set (tokenize (title target)))
             * length (tokenize (title cand)))%nat
       /\ (norm (score r) < overlap (score r) * overlap (score r))%nat
       /\ (1 < score_value (score r))%R.
Proof.
  cbv zeta. split; [reflexivity | split; [reflexivity |]].
  eexists. split; [vm_compute; reflexivity |].
  split; [reflexivity | split; [reflexivity | split; [reflexivity |]]].
  split; [reflexivity | split].
  - simpl. lia.
  - by apply above_one_value.
Qed.

(** * Further properties *)

(** ** The page fetcher *)

Lemma requests_cons_request i tr : requests (Request i :: tr) = S (requests tr).
Proof. reflexivity. Qed.

Lemma requests_cons_delay ms tr : requests (Delay ms :: tr) = requests tr.
Proof. reflexivity. Qed.

Lemma attempts_effort fetch aborted n : forall i e,
  (requests (fst (attempts fetch aborted n i e)) <= n)%nat
  /\ (0 <= slept (fst (attempts fetch aborted n i e))
      <= 500 * Z.of_nat n * (2 * Z.of_nat i + Z.of_nat n + 1))%Z.
Proof.
  induction n as [ | n IH]; intros i e; cbn [attempts].
  - unfold requests, slept. simpl. lia.
  - destruct (aborted i); [unfold requests, slept; simpl; lia |].
    assert (Hretry : forall e',
      (requests (Request i :: Delay (backoff i)
                   :: fst (attempts fetch aborted n (S i) e')) <= S n)%nat
      /\ (0 <= slept (Request i :: Delay (backoff i)
                        :: fst (attempts fetch aborted n (S i) e'))
          <= 500 * Z.of_nat (S n) * (2 * Z.of_nat i + Z.of_nat (S n) + 1))%Z).
    { intros e'. destruct (IH (S i) e') as [Hr Hs].
      rewrite requests_cons_request, requests_cons_delay.
      cbn [slept foldr]. fold (slept (fst (attempts fetch aborted n (S i) e'))).
      unfold backoff. split; [lia | nia]. }
    destruct (fetch i) as [ | | status body].
    + specialize (Hretry (Some TransportError)).
      by destruct (attempts fetch aborted n (S i) (Some TransportError)).
    + unfold requests, slept. simpl. split; [lia | nia].
    + destruct (response_ok status);
        [unfold requests, slept; simpl; split; [lia | nia] |].
      destruct ((500 <=? status) || (status =? 429))%Z.
      * specialize (Hretry e).
        by destruct (attempts fetch aborted n (S i) e).
      * specialize (Hretry (Some (ApiError status))).
        by destruct (attempts fetch aborted n (S i) (Some (ApiError status))).
Qed.

(** X1.  Whatever the network and the signal do, [fetchWithRetry] issues
    at most [retries] requests and sleeps at most
    [1000 * (1 + 2 + ... + retries)] milliseconds. *)
Theorem X1_fetchWithRetry_effort_is_bounded
  (fetch : nat -> Outcome) (aborted : nat -> bool) (retries : nat) :
  (requests (fst (fetchWithRetry fetch aborted retries)) <= retries)%nat
  /\ (0 <= slept (fst (fetchWithRetry fetch aborted retries))
      <= 500 * Z.of_nat retries * (Z.of_nat retries + 1))%Z.
Proof.
  destruct (attempts_effort fetch aborted retries 0 None) as [Hr Hs].
  split; [exact Hr |]. unfold fetchWithRetry. lia.
Qed.

Lemma attempts_success fetch aborted n : forall i e status body,
  snd (attempts fetch aborted n i e) = inr (status, body) ->
  exists k,
    (k < n)%nat
    /\ fetch (i + k)%nat = Response status body
    /\ response_ok status = true
    /\ requests (fst (attempts fetch aborted n i e)) = S k
    /\ slept (fst (attempts fetch aborted n i e))
       = (500 * Z.of_nat k * (2 * Z.of_nat i + Z.of_nat k + 1))%Z.
Proof.
  induction n as [ | n IH]; intros i e status body; cbn [attempts];
    [discriminate |].
  destruct (aborted i); [discriminate |].
  assert (Hretry : forall e',
    snd (attempts fetch aborted n (S i) e') = inr (status, body) ->
    exists k,
      (k < S n)%nat
      /\ fetch (i + k)%nat = Response status body
      /\ response_ok status = true
      /\ requests (Request i :: Delay (backoff i)
                     :: fst (attempts fetch aborted n (S i) e')) = S k
      /\ slept (Request i :: Delay (backoff i)
                  :: fst (attempts fetch aborted n (S i) e'))
         = (500 * Z.of_nat k * (2 * Z.of_nat i + Z.of_nat k + 1))%Z).
  { intros e' H. destruct (IH (S i) e' status body H)
      as (k & Hk & Hf & Hok & Hr & Hs).
    exists (S k). rewrite requests_cons_request, requests_cons_delay.
    cbn [slept foldr]. fold (slept (fst (attempts fetch aborted n (S i) e'))).
    rewrite Hs, Hr. unfold backoff.
    replace (i + S k)%nat with (S i + k)%nat by lia.
    repeat split; [lia | exact Hf | exact Hok | nia]. }
  destruct (fetch i) as [ | | st b] eqn:Hfi.
  - specialize (Hretry (Some TransportError)).
    destruct (attempts fetch aborted n (S i) (Some TransportError)).
    exact Hretry.
  - discriminate.
  - destruct (response_ok st) eqn:Hok.
    + intros [= -> ->]. exists 0%nat. rewrite Nat.add_0_r.
      unfold requests, slept. simpl.
      repeat split; [lia | exact Hfi | exact Hok].
    + destruct ((500 <=? st) || (st =? 429))%Z.
      * specialize (Hretry e).
        destruct (attempts fetch aborted n (S i) e). exact Hretry.
      * specialize (Hretry (Some (ApiError st))).
        destruct (attempts fetch aborted n (S i) (Some (ApiError st))).
        exact Hretry.
Qed.

(** X2.  A response that [fetchWithRetry] returns is one the network gave,
    with a status from 200 to 299, at some attempt [k]; it was the last of
    [k + 1] requests, and the fetcher slept [1000 * (1 + ... + k)]
    milliseconds before it. *)
Theorem X2_fetchWithRetry_returns_an_ok_response
  (fetch : nat -> Outcome) (aborted : nat -> bool) (retries : nat)
  (status : Z) (body : Body) :
  snd (fetchWithRetry fetch aborted retries) = inr (status, body) ->
  exists k,
    (k < retries)%nat
    /\ fetch k = Response status body
    /\ (200 <= status <= 299)%Z
    /\ requests (fst (fetchWithRetry fetch aborted retries)) = S k
    /\ slept (fst (fetchWithRetry fetch aborted retries))
       = (500 * Z.of_nat k * (Z.of_nat k + 1))%Z.
Proof.
  intros H.
  destruct (attempts_success fetch aborted retries 0 None status body H)
    as (k & Hk & Hf & Hok & Hr & Hs).
  exists k. unfold fetchWithRetry. rewrite Hr, Hs.
  unfold response_ok in Hok. apply andb_true_iff in Hok as [H1 H2].
  repeat split; try assumption; lia.
Qed.

Lemma X2_fetchWithRetry_returns_an_ok_response_witness :
  let fetch := fun i : nat =>
    if (i <? 2)%nat then Response 503 Unparseable
    else Response 200 Unparseable in
  snd (fetchWithRetry fetch (fun _ => false) 3) = inr (200%Z, Unparseable)
  /\ exists k,
       (k < 3)%nat
       /\ fetch k = Response 200 Unparseable
       /\ (200 <= 200 <= 299)%Z
       /\ requests (fst (fetchWithRetry fetch (fun _ => false) 3)) = S k
       /\ slept (fst (fetchWithRetry fetch (fun _ => false) 3))
          = (500 * Z.of_nat k * (Z.of_nat k + 1))%Z.
Proof.
  cbv zeta. split; [reflexivity |].
  exact (X2_fetchWithRetry_returns_an_ok_response
           (fun i : nat => if (i <? 2)%nat then Response 503 Unparseable
                           else Response 200 Unparseable)
           (fun _ => false) 3 200%Z Unparseable eq_refl).
Defined.

Lemma attempts_abort fetch aborted n : forall i e,
  e <> Some AbortError ->
  snd (attempts fetch aborted n i e) = inl AbortError ->
  exists k,
    (k < n)%nat
    /\ ((aborted (i + k)%nat = true
         /\ requests (fst (attempts fetch aborted n i e)) = k)
        \/ (aborted (i + k)%nat = false
            /\ fetch (i + k)%nat = FetchAborted
            /\ requests (fst (attempts fetch aborted n i e)) = S k)).
Proof.
  induction n as [ | n IH]; intros i e He; cbn [attempts].
  - destruct e as [[ | | | ] | ]; simpl; congruence.
  - destruct (aborted i) eqn:Hab.
    { intros _. exists 0%nat. rewrite Nat.add_0_r.
      split; [lia | left; split; [exact Hab | reflexivity]]. }
    assert (Hretry : forall e',
      e' <> Some AbortError ->
      snd (attempts fetch aborted n (S i) e') = inl AbortError ->
      exists k,
        (k < S n)%nat
        /\ ((aborted (i + k)%nat = true
             /\ requests (Request i :: Delay (backoff i)
                            :: fst (attempts fetch aborted n (S i) e')) = k)
            \/ (aborted (i + k)%nat = false
                /\ fetch (i + k)%nat = FetchAborted
                /\ requests (Request i :: Delay (backoff i)
                               :: fst (attempts fetch aborted n (S i) e'))
                   = S k))).
    { intros e' He' H. destruct (IH (S i) e' He' H) as (k & Hk & Hcase).
      exists (S k). rewrite requests_cons_request, requests_cons_delay.
      replace (i + S k)%nat with (S i + k)%nat by lia.
      split; [lia |].
      destruct Hcase as [[Ha Hr] | (Ha & Hf & Hr)]; [left | right];
        rewrite Hr; auto. }
    destruct (fetch i) as [ | | st b] eqn:Hfi.
    + specialize (Hretry (Some TransportError) ltac:(discriminate)).
      destruct (attempts fetch aborted n (S i) (Some TransportError)).
      exact Hretry.
    + intros _. exists 0%nat. rewrite Nat.add_0_r.
      split; [lia | right; repeat split; assumption].
    + destruct (response_ok st); [discriminate |].
      destruct ((500 <=? st) || (st =? 429))%Z.
      * specialize (Hretry e He).
        destruct (attempts fetch aborted n (S i) e). exact Hretry.
      * specialize (Hretry (Some (ApiError st)) ltac:(discriminate)).
        destruct (attempts fetch aborted n (S i) (Some (ApiError st))).
        exact Hretry.
Qed.

(** X3.  [fetchWithRetry] fails with an [AbortError] only where a
    cancellation was seen, and stops there: either the signal was read as
    aborted at the top of an iteration [k], and the [k] requests of the
    earlier iterations are all that were issued, or the request of
    iteration [k] was itself rejected with an [AbortError], and it was the
    last one. *)
Theorem X3_fetchWithRetry_abort_is_final
  (fetch : nat -> Outcome) (aborted : nat -> bool) (retries : nat) :
  snd (fetchWithRetry fetch aborted retries) = inl AbortError ->
  exists k,
    (k < retries)%nat
    /\ ((aborted k = true
         /\ requests (fst (fetchWithRetry fetch aborted retries)) = k)
        \/ (aborted k = false
            /\ fetch k = FetchAborted
            /\ requests (fst (fetchWithRetry fetch aborted retries)) = S k)).
Proof.
  intros H.
  exact (attempts_abort fetch aborted retries 0 None ltac:(discriminate) H).
Qed.

Lemma X3_fetchWithRetry_abort_is_final_witness :
  let fetch := fun _ : nat => NetworkFailure in
  let aborted := fun i : nat => (1 <=? i)%nat in
  snd (fetchWithRetry fetch aborted 3) = inl AbortError
  /\ exists k,
       (k < 3)%nat
       /\ ((aborted k = true
            /\ requests (fst (fetchWithRetry fetch aborted 3)) = k)
           \/ (aborted k = false
               /\ fetch k = FetchAborted
               /\ requests (fst (fetchWithRetry fetch aborted 3)) = S k)).
Proof.
  cbv zeta. split; [reflexivity |].
  exact (X3_fetchWithRetry_abort_is_final
           (fun _ : nat => NetworkFailure) (fun i : nat => (1 <=? i)%nat) 3
           eq_refl).
Defined.

Lemma attempts_retryable fetch aborted n : forall i e,
  (forall k, (k < n)%nat ->
     aborted (i + k)%nat = false
     /\ exists status body,
          fetch (i + k)%nat = Response status body
          /\ (500 <= status \/ status = 429)%Z) ->
  snd (attempts fetch aborted n i e) = inl (default ConnectError e)
  /\ requests (fst (attempts fetch aborted n i e)) = n
  /\ slept (fst (attempts fetch aborted n i e))
     = (500 * Z.of_nat n * (2 * Z.of_nat i + Z.of_nat n + 1))%Z.
Proof.
  induction n as [ | n IH]; intros i e Hall; cbn [attempts].
  - unfold requests, slept. simpl. repeat split; lia.
  - destruct (Hall 0%nat ltac:(lia)) as (Hab & status & body & Hf & Hst).
    rewrite Nat.add_0_r in Hab, Hf. rewrite Hab, Hf.
    assert (Hok : response_ok status = false).
    { unfold response_ok. apply andb_false_iff. lia. }
    assert (Hre : ((500 <=? status) || (status =? 429))%Z = true).
    { apply orb_true_iff. lia. }
    rewrite Hok, Hre.
    destruct (IH (S i) e) as (Hres & Hr & Hs).
    { intros k Hk. replace (S i + k)%nat with (i + S k)%nat by lia.
      apply Hall. lia. }
    destruct (attempts fetch aborted n (S i) e) as [tr r]. simpl in *.
    rewrite requests_cons_request, requests_cons_delay, Hr.
    cbn [slept foldr]. fold (slept tr). rewrite Hs. unfold backoff.
    repeat split; try assumption; nia.
Qed.

(** X4.  When every attempt is answered with a status of 500 or more, or
    with 429, the fetcher uses all its attempts, sleeps after each of
    them, the last one included, and then fails with the error
    [Failed to connect to DBLP API.]: the status of the answers is not
    reported. *)
Theorem X4_fetchWithRetry_exhausted_by_server_errors
  (fetch : nat -> Outcome) (aborted : nat -> bool) (retries : nat) :
  (forall k, (k < retries)%nat ->
     aborted k = false
     /\ exists status body,
          fetch k = Response status body
          /\ (500 <= status \/ status = 429)%Z) ->
  snd (fetchWithRetry fetch aborted retries) = inl ConnectError
  /\ requests (fst (fetchWithRetry fetch aborted retries)) = retries
  /\ slept (fst (fetchWithRetry fetch aborted retries))
     = (500 * Z.of_nat retries * (Z.of_nat retries + 1))%Z.
Proof.
  intros Hall.
  destruct (attempts_retryable fetch aborted retries 0 None Hall)
    as (Hres & Hr & Hs).
  unfold fetchWithRetry. rewrite Hr, Hs. repeat split; try assumption; lia.
Qed.

Lemma X4_fetchWithRetry_exhausted_by_server_errors_witness :
  (forall k, (k < 3)%nat ->
     (fun _ : nat => false) k = false
     /\ exists status body,
          Sample.failing 503 k = Response status body
          /\ (500 <= status \/ status = 429)%Z)
  /\ snd (fetchWithRetry (Sample.failing 503) (fun _ => false) 3)
     = inl ConnectError
  /\ requests (fst (fetchWithRetry (Sample.failing 503) (fun _ => false) 3))
     = 3%nat
  /\ slept (fst (fetchWithRetry (Sample.failing 503) (fun _ => false) 3))
     = (500 * Z.of_nat 3 * (Z.of_nat 3 + 1))%Z.
Proof.
  assert (H : forall k, (k < 3)%nat ->
     (fun _ : nat => false) k = false
     /\ exists status body,
          Sample.failing 503 k = Response status body
          /\ (500 <= status \/ status = 429)%Z).
  { intros k _. split; [reflexivity |].
    exists 503%Z, Unparseable. split; [reflexivity | lia]. }
  split; [exact H |].
  exact (X4_fetchWithRetry_exhausted_by_server_errors
           (Sample.failing 503) (fun _ => false) 3 H).
Defined.

(** ** The pool *)

(** An error of the pool is the error of the settlement of one of the
    fetches it was given. *)
Section PoolErrors.

Context {St Err : Type}.
Variable launch : Z -> St -> St.
Variable settle_one : Z -> St -> Err + St.

Lemma settle_error k active st e :
  settle settle_one k active st = inl e ->
  exists f s, f ∈ active /\ settle_one f s = inl e.
Proof.
  unfold settle. cbv zeta.
  destruct (active !! (k mod length active)%nat) as [f | ] eqn:Hf;
    [ | discriminate].
  destruct (settle_one f st) as [e' | s] eqn:Hs; [ | discriminate].
  intros [= <-]. exists f, st. split; [ | exact Hs].
  by eapply list_elem_of_lookup_2.
Qed.

Lemma settle_active k active st a s :
  settle settle_one k active st = inr (a, s) -> a ⊆ active.
Proof.
  unfold settle. cbv zeta.
  destruct (active !! (k mod length active)%nat) as [f | ].
  - destruct (settle_one f st) as [e' | s']; [discriminate |].
    intros [= <- <-]. apply sublist_subseteq, sublist_delete.
  - by intros [= <- <-].
Qed.

Lemma window_error offsets : forall sched active st,
  match window launch settle_one offsets sched active st with
  | inl e => exists f s, f ∈ active ++ offsets /\ settle_one f s = inl e
  | inr (_, a, _) => a ⊆ active ++ offsets
  end.
Proof.
  induction offsets as [ | g rest IH]; cbn [window]; intros sched active st.
  - by rewrite app_nil_r.
  - replace (active ++ g :: rest) with ((active ++ [g]) ++ rest)
      by (by rewrite <- app_assoc).
    destruct (CONCURRENCY_LIMIT <=? length (active ++ [g]))%nat.
    + destruct (settle settle_one (hd O sched) (active ++ [g]) (launch g st))
        as [e | [a s]] eqn:Hs.
      * apply settle_error in Hs as (f & s & Hf & Hs).
        exists f, s. split; [ | exact Hs].
        apply elem_of_app. by left.
      * apply settle_active in Hs. specialize (IH (tl sched) a s).
        destruct (window launch settle_one rest (tl sched) a s)
          as [e | [[sched' a'] s']].
        -- destruct IH as (f & s0 & Hf & Hs0). exists f, s0.
           split; [ | exact Hs0].
           apply elem_of_app in Hf as [Hf | Hf]; apply elem_of_app; auto.
        -- intros f Hf. apply IH in Hf.
           apply elem_of_app in Hf as [Hf | Hf]; apply elem_of_app; auto.
    + apply IH.
Qed.

Lemma drain_error n : forall sched active st e,
  drain settle_one n sched active st = inl e ->
  exists f s, f ∈ active /\ settle_one f s = inl e.
Proof.
  induction n as [ | n IH]; cbn [drain]; intros sched active st e;
    [discriminate |].
  destruct (settle settle_one (hd O sched) active st) as [e' | [a s]] eqn:Hs.
  - intros [= <-]. by eapply settle_error.
  - intros H. apply settle_active in Hs.
    destruct (IH _ _ _ _ H) as (f & s0 & Hf & Hs0). exists f, s0.
    split; [by apply Hs | exact Hs0].
Qed.

Lemma pool_error offsets sched st e :
  pool launch settle_one offsets sched st = inl e ->
  exists f s, In f offsets /\ settle_one f s = inl e.
Proof.
  unfold pool. pose proof (window_error offsets sched [] st) as Hw.
  destruct (window launch settle_one offsets sched [] st)
    as [e' | [[sched' a] s]].
  - intros [= <-]. destruct Hw as (f & s & Hf & Hs).
    exists f, s. split; [by apply list_elem_of_In | exact Hs].
  - intros H. destruct (drain_error _ _ _ _ _ H) as (f & s0 & Hf & Hs0).
    exists f, s0. split; [by apply list_elem_of_In, Hw | exact Hs0].
Qed.

End PoolErrors.

(** ** The crawl: queries, sizes and filters *)

Lemma drop_while_all p s :
  Js.drop_while p s = "" <-> Js.all_chars p s = true.
Proof.
  induction s as [ | c r IH]; simpl; [done |].
  destruct (p c); simpl; [exact IH | split; discriminate].
Qed.

Lemma all_chars_drop_while p s :
  Js.all_chars p (Js.drop_while p s) = true -> Js.all_chars p s = true.
Proof.
  induction s as [ | c r IH]; simpl; [done |].
  destruct (p c) eqn:Hc; simpl; [exact IH |]. by rewrite Hc.
Qed.

Lemma all_chars_rev_app p s : forall acc,
  Js.all_chars p (String.rev_app s acc)
  = Js.all_chars p s && Js.all_chars p acc.
Proof.
  induction s as [ | c r IH]; simpl; intros acc; [done |].
  rewrite IH. simpl. destruct (p c), (Js.all_chars p r); reflexivity.
Qed.

Lemma all_chars_rev p s :
  Js.all_chars p (String.rev s) = Js.all_chars p s.
Proof. unfold String.rev. rewrite all_chars_rev_app. simpl. apply andb_true_r. Qed.

Lemma rev_app_empty s : forall acc,
  String.rev_app s acc = "" -> s = "" /\ acc = "".
Proof.
  induction s as [ | c r IH]; simpl; intros acc H; [done |].
  by destruct (IH _ H).
Qed.

(** [trim] gives the empty string exactly on the strings of white
    space. *)
Lemma trim_empty (s : string) :
  Query.trim s = "" <-> Js.all_chars Js.is_space s = true.
Proof.
  unfold Query.trim. split.
  - intros H. apply rev_app_empty in H as [H _].
    apply drop_while_all in H. rewrite all_chars_rev in H.
    by apply all_chars_drop_while.
  - intros H. apply drop_while_all in H. by rewrite H.
Qed.

(** X5.  In keyword mode a crawl is refused with the error
    [Search query cannot be empty.] exactly when the query holds nothing
    but white space, and it is then refused before anything is asked of
    the network and before any call of [onProgress]. *)
Theorem X5_blank_query_is_refused_before_any_request
  (domText : string -> string) (net : Z -> nat -> Outcome)
  (sig : Z -> nat -> bool) (rnd : nat -> string)
  (p : SearchParams) (sched : list nat) :
  mode p = keyword ->
  (outcome (fetchDBLPData domText net sig rnd p sched) = inl EmptyQuery
   <-> Js.all_chars Js.is_space (query p) = true)
  /\ (Js.all_chars Js.is_space (query p) = true ->
      observed (fetchDBLPData domText net sig rnd p sched) = []).
Proof.
  intros Hmode.
  assert (Heff : Query.effective p = Query.trim (query p))
    by (unfold Query.effective; by rewrite Hmode).
  unfold fetchDBLPData. rewrite Heff.
  destruct (String.eqb_spec (Query.trim (query p)) "") as [Ht | Ht].
  - apply trim_empty in Ht. by split.
  - assert (Hns : Js.all_chars Js.is_space (query p) <> true)
      by (by rewrite <- trim_empty).
    split; [ | done]. split; [ | done].
    intros H. exfalso. revert H.
    destruct (snd (fetchWithRetry (net 0%Z) (sig 0%Z) 3))
      as [[ | | | ] | [status [ | total hit]]]; try discriminate.
    cbv zeta.
    destruct (Js.min _ _) as [t | ]; [ | discriminate].
    destruct (_ <? _)%Z; [ | discriminate].
    match goal with
    | |- context [pool ?l ?s ?o ?sc ?st] =>
        destruct (pool l s o sc st) as [[e st'] | st'] eqn:Hp
    end; [ | discriminate].
    apply pool_error in Hp as (f & s & _ & Hs).
    unfold fetchBatch in Hs.
    destruct (snd (fetchWithRetry (net f) (sig f) 3))
      as [[ | | | ] | [? [ | ? ?]]]; try discriminate.
    injection Hs as <- _. discriminate.
Qed.

Lemma X5_blank_query_is_refused_before_any_request_witness :
  let p := {| mode := keyword; query := "   "; yearStart := None;
              yearEnd := None; typeFilter := all; maxResults := 50 |} in
  mode p = keyword
  /\ (outcome (fetchDBLPData Sample.plain (Sample.source 300) Sample.never
                 Sample.no_random p []) = inl EmptyQuery
      <-> Js.all_chars Js.is_space (query p) = true)
  /\ (Js.all_chars Js.is_space (query p) = true ->
      observed (fetchDBLPData Sample.plain (Sample.source 300) Sample.never
                  Sample.no_random p []) = []).
Proof.
  cbv zeta. split; [reflexivity |].
  exact (X5_blank_query_is_refused_before_any_request
           Sample.plain (Sample.source 300) Sample.never Sample.no_random
           {| mode := keyword; query := "   "; yearStart := None;
              yearEnd := None; typeFilter := all; maxResults := 50 |}
           [] eq_refl).
Defined.

Lemma filter_length_le {A} (f : A -> bool) (l : list A) :
  (length (List.filter f l) <= length l)%nat.
Proof.
  induction l as [ | a l IH]; simpl; [lia |].
  destruct (f a); simpl; lia.
Qed.

Lemma slice0_length {A} (l : list A) (e : Z) :
  (0 <= e)%Z -> (Z.of_nat (length (Js.slice0 l e)) <= e)%Z.
Proof.
  intros He. unfold Js.slice0.
  destruct (Z.ltb_spec e 0) as [? | _]; [lia |].
  rewrite length_take. lia.
Qed.

(** X6.  A crawl never returns more records than [maxResults] (50 when
    [maxResults] is 0), as long as that number is not negative. *)
Theorem X6_result_size_is_bounded
  (domText : string -> string) (net : Z -> nat -> Outcome)
  (sig : Z -> nat -> bool) (rnd : nat -> string)
  (p : SearchParams) (sched : list nat) (arts : list Article) :
  outcome (fetchDBLPData domText net sig rnd p sched) = inr arts ->
  (0 <= maxResults p)%Z ->
  (Z.of_nat (length arts) <= max_results p)%Z
  /\ (max_results p = if (maxResults p =? 0)%Z then 50 else maxResults p)%Z.
Proof.
  intros H Hmax. split; [ | reflexivity].
  destruct (fetchDBLPData_hits _ _ _ _ _ _ _ H) as (hits & -> & _).
  unfold finish.
  assert (Hpos : (0 <= max_results p)%Z).
  { unfold max_results. destruct (maxResults p =? 0)%Z; lia. }
  pose proof (slice0_length hits (max_results p) Hpos) as Hs.
  pose proof (filter_length_le (keep p)
                (imap (fun i hit => toArticle domText (rnd i) hit)
                   (Js.slice0 hits (max_results p)))) as Hf.
  rewrite length_imap in Hf. lia.
Qed.

Lemma X6_result_size_is_bounded_witness :
  outcome (fetchDBLPData Sample.plain (Sample.source 1000) Sample.never
             Sample.no_random (Sample.params 50 all) [])
  = inr (finish Sample.plain Sample.no_random (Sample.params 50 all) 50
           (Sample.page 0 100))
  /\ (0 <= maxResults (Sample.params 50 all))%Z
  /\ (Z.of_nat (length (finish Sample.plain Sample.no_random
                          (Sample.params 50 all) 50 (Sample.page 0 100)))
      <= max_results (Sample.params 50 all))%Z
  /\ (max_results (Sample.params 50 all)
      = if (maxResults (Sample.params 50 all) =? 0)%Z
        then 50 else maxResults (Sample.params 50 all))%Z.
Proof.
  assert (H : outcome (fetchDBLPData Sample.plain (Sample.source 1000)
                         Sample.never Sample.no_random
                         (Sample.params 50 all) [])
              = inr (finish Sample.plain Sample.no_random
                       (Sample.params 50 all) 50 (Sample.page 0 100)))
    by (vm_compute; reflexivity).
  assert (Hm : (0 <= maxResults (Sample.params 50 all))%Z) by (simpl; lia).
  split; [exact H | split; [exact Hm |]].
  exact (X6_result_size_is_bounded _ _ _ _ _ _ _ H Hm).
Defined.

(** X7.  When the first page holds at least [maxResults] hits, the crawl
    asks for no other page, whatever number of matches the source
    reports: it makes one call of [onProgress], and the records that it
    returns are the hits of the first page, truncated and filtered. *)
Theorem X7_first_page_suffices
  (domText : string -> string) (net : Z -> nat -> Outcome)
  (sig : Z -> nat -> bool) (rnd : nat -> string)
  (p : SearchParams) (sched : list nat)
  (status : Z) (total : option string) (hit : HitField) :
  Query.effective p <> "" ->
  snd (fetchWithRetry (net 0%Z) (sig 0%Z) 3)
    = inr (status, Parsed total hit) ->
  (max_results p <= Z.of_nat (length (hits_of hit)))%Z ->
  launches (observed (fetchDBLPData domText net sig rnd p sched)) = [0%Z]
  /\ length (progress_calls
               (observed (fetchDBLPData domText net sig rnd p sched)))
     = 1%nat
  /\ forall arts,
       outcome (fetchDBLPData domText net sig rnd p sched) = inr arts ->
       arts = finish domText rnd p (max_results p) (hits_of hit).
Proof.
  intros Hq Hfirst Hlen. unfold fetchDBLPData.
  destruct (String.eqb_spec (Query.effective p) "") as [? | _]; [done |].
  rewrite Hfirst. cbv zeta.
  destruct (totalMatches_of total) as [t | ]; cbn [Js.min].
  - destruct (Z.ltb_spec (Z.of_nat (length (hits_of hit)))
                (Z.min t (max_results p))) as [Hlt | _]; [lia |].
    repeat split. cbn [outcome]. by intros arts [= <-].
  - repeat split. cbn [outcome]. by intros arts [= <-].
Qed.

Lemma X7_first_page_suffices_witness :
  Query.effective (Sample.params 50 all) <> ""
  /\ snd (fetchWithRetry (Sample.source 1000 0%Z) (Sample.never 0%Z) 3)
     = inr (200%Z, Parsed (Some "1000") (HitArray (Sample.page 0 100)))
  /\ (max_results (Sample.params 50 all)
      <= Z.of_nat (length (hits_of (HitArray (Sample.page 0 100)))))%Z
  /\ outcome (fetchDBLPData Sample.plain (Sample.source 1000) Sample.never
                Sample.no_random (Sample.params 50 all) [])
     = inr (finish Sample.plain Sample.no_random (Sample.params 50 all)
              (max_results (Sample.params 50 all))
              (hits_of (HitArray (Sample.page 0 100))))
  /\ launches (observed (fetchDBLPData Sample.plain (Sample.source 1000)
                           Sample.never Sample.no_random
                           (Sample.params 50 all) [])) = [0%Z]
  /\ length (progress_calls
               (observed (fetchDBLPData Sample.plain (Sample.source 1000)
                            Sample.never Sample.no_random
                            (Sample.params 50 all) [])))
     = 1%nat.
Proof.
  assert (Hq : Query.effective (Sample.params 50 all) <> "")
    by (vm_compute; discriminate).
  assert (Hfirst :
    snd (fetchWithRetry (Sample.source 1000 0%Z) (Sample.never 0%Z) 3)
    = inr (200%Z, Parsed (Some "1000") (HitArray (Sample.page 0 100))))
    by (vm_compute; reflexivity).
  assert (Hlen :
    (max_results (Sample.params 50 all)
     <= Z.of_nat (length (hits_of (HitArray (Sample.page 0 100)))))%Z)
    by (vm_compute; discriminate).
  assert (Hret :
    outcome (fetchDBLPData Sample.plain (Sample.source 1000) Sample.never
               Sample.no_random (Sample.params 50 all) [])
    = inr (finish Sample.plain Sample.no_random (Sample.params 50 all) 50
             (Sample.page 0 100)))
    by (vm_compute; reflexivity).
  destruct (X7_first_page_suffices Sample.plain (Sample.source 1000)
              Sample.never Sample.no_random (Sample.params 50 all) []
              200%Z (Some "1000") (HitArray (Sample.page 0 100))
              Hq Hfirst Hlen) as (Hl & Hp & Ha).
  split; [exact Hq | split; [exact Hfirst | split; [exact Hlen |]]].
  split; [ | split; [exact Hl | exact Hp]].
  rewrite Hret. exact (f_equal (@inr CrawlError _) (Ha _ Hret)).
Defined.

(** What the final filter lets through. *)
Lemma keep_spec (p : SearchParams) (a : Article) (y : Z) :
  keep p a = true ->
  Js.parseInt (year a) = Some y ->
  match typeFilter p with
  | all => True
  | journal => venueType a = Journal
  | conference => venueType a = Conference
  end
  /\ (exists lo,
        (if Js.truthy (yearStart p)
         then Js.parseInt (default "" (yearStart p)) else Some 0%Z) = Some lo
        /\ (lo <= y)%Z)
  /\ (exists hi,
        (if Js.truthy (yearEnd p)
         then Js.parseInt (default "" (yearEnd p)) else Some 9999%Z) = Some hi
        /\ (y <= hi)%Z).
Proof.
  unfold keep. intros H Hy. rewrite Hy in H. cbv zeta in H.
  apply andb_true_iff in H as [Hyear Htype].
  apply andb_true_iff in Hyear as [Hlo Hhi].
  split; [ | split].
  - destruct (typeFilter p); [done | | ]; by apply bool_decide_eq_true in Htype.
  - destruct (if Js.truthy (yearStart p) then _ else _) as [lo | ];
      [ | discriminate].
    exists lo. split; [reflexivity |]. simpl in Hlo. lia.
  - unfold Js.leb in Hhi.
    destruct (if Js.truthy (yearEnd p) then _ else _) as [hi | ];
      [ | discriminate].
    exists hi. split; [reflexivity |]. simpl in Hhi. lia.
Qed.

(** X8.  Every returned record whose year reads as a number [y] has the
    venue type that the filter asks for, and [y] lies between the start
    and the end year, both included; a missing start year counts as 0, a
    missing end year as 9999, and a start or end year that does not read
    as a number excludes every such record. *)
Theorem X8_dated_records_satisfy_the_filters
  (domText : string -> string) (net : Z -> nat -> Outcome)
  (sig : Z -> nat -> bool) (rnd : nat -> string)
  (p : SearchParams) (sched : list nat) (arts : list Article) :
  outcome (fetchDBLPData domText net sig rnd p sched) = inr arts ->
  forall a y,
    In a arts -> Js.parseInt (year a) = Some y ->
    match typeFilter p with
    | all => True
    | journal => venueType a = Journal
    | conference => venueType a = Conference
    end
    /\ (exists lo,
          (if Js.truthy (yearStart p)
           then Js.parseInt (default "" (yearStart p)) else Some 0%Z)
          = Some lo
          /\ (lo <= y)%Z)
    /\ (exists hi,
          (if Js.truthy (yearEnd p)
           then Js.parseInt (default "" (yearEnd p)) else Some 9999%Z)
          = Some hi
          /\ (y <= hi)%Z).
Proof.
  intros H a y Ha Hy.
  destruct (fetchDBLPData_hits _ _ _ _ _ _ _ H) as (hits & -> & _).
  unfold finish in Ha. apply filter_In in Ha as [_ Hkeep].
  by apply keep_spec.
Qed.

Lemma X8_dated_records_satisfy_the_filters_witness :
  let p := {| mode := keyword; query := "query processing";
              yearStart := Some "2019"; yearEnd := Some "2021";
              typeFilter := journal; maxResults := 1 |} in
  let a := toArticle Sample.plain "0.5" (Sample.hit 0) in
  outcome (fetchDBLPData Sample.plain (Sample.source 1) Sample.never
             Sample.no_random p []) = inr [a]
  /\ In a [a]
  /\ Js.parseInt (year a) = Some 2020%Z
  /\ venueType a = Journal
  /\ (exists lo, Js.parseInt "2019" = Some lo /\ (lo <= 2020)%Z)
  /\ (exists hi, Js.parseInt "2021" = Some hi /\ (2020 <= hi)%Z).
Proof.
  cbv zeta.
  assert (H : outcome (fetchDBLPData Sample.plain (Sample.source 1)
                         Sample.never Sample.no_random
                         {| mode := keyword; query := "query processing";
                            yearStart := Some "2019"; yearEnd := Some "2021";
                            typeFilter := journal; maxResults := 1 |} [])
              = inr [toArticle Sample.plain "0.5" (Sample.hit 0)])
    by (vm_compute; reflexivity).
  split; [exact H | split; [by left | split; [reflexivity |]]].
  exact (X8_dated_records_satisfy_the_filters _ _ _ _ _ _ _ H
           (toArticle Sample.plain "0.5" (Sample.hit 0)) 2020%Z
           (or_introl eq_refl) eq_refl).
Defined.

(** ** The crawl: requests, window and failures *)

Lemma launches_app (a b : list CrawlEvent) :
  launches (a ++ b) = launches a ++ launches b.
Proof. apply flat_map_app. Qed.

(** The pool launches the fetches in the order of the offsets it is
    given, one launch per offset. *)
Lemma window_launch_order offsets : forall sched active (l : list Z),
  exists sched' a,
    window (fun f l => l ++ [f]) (fun _ l => @inr Empty_set _ l)
      offsets sched active l
    = inr (sched', a, l ++ offsets).
Proof.
  induction offsets as [ | f rest IH]; cbn [window]; intros sched active l.
  - exists sched, active. by rewrite app_nil_r.
  - destruct (CONCURRENCY_LIMIT <=? length (active ++ [f]))%nat.
    + unfold settle at 1. cbv zeta.
      destruct ((active ++ [f]) !! (hd O sched mod length (active ++ [f]))%nat);
        (edestruct IH as (sched' & a & ->); exists sched', a;
         by rewrite <- app_assoc).
    + edestruct IH as (sched' & a & ->). exists sched', a.
      by rewrite <- app_assoc.
Qed.

Lemma drain_launch_order n : forall sched active (l : list Z),
  drain (fun _ l => @inr Empty_set _ l) n sched active l = inr l.
Proof.
  induction n as [ | n IH]; cbn [drain]; intros sched active l; [done |].
  unfold settle. cbv zeta.
  destruct (active !! (hd O sched mod length active)%nat); apply IH.
Qed.

Lemma pool_launches net sig targetCount offsets sched st st' :
  pool launchBatch (fetchBatch net sig targetCount) offsets sched st
    = inr st' ->
  launches (events st') = launches (events st) ++ offsets.
Proof.
  intros H.
  set (R := fun (s : Acc) (l : list Z) =>
              launches (events s) = launches (events st) ++ l).
  assert (Hlaunch : forall f s1 s2,
             R s1 s2 -> R (launchBatch f s1) (s2 ++ [f])).
  { intros f s1 s2 HR. unfold R in *. cbn [launchBatch events].
    by rewrite launches_app, HR, <- app_assoc. }
  assert (Hsettle : forall f s1 s1' s2,
             R s1 s2 -> fetchBatch net sig targetCount f s1 = inr s1' ->
             R s1' s2).
  { intros f s1 s1' s2 HR. unfold R, fetchBatch in *.
    destruct (snd (fetchWithRetry (net f) (sig f) 3))
      as [[ | | | ] | [status [ | total hit]]]; intros [= <-]; try exact HR.
    cbn [events]. rewrite launches_app, HR. simpl. apply app_nil_r. }
  assert (H0 : R st []) by (unfold R; by rewrite app_nil_r).
  destruct (pool_sim _ _ (fun f l => l ++ [f]) (fun _ l => l) R
              Hlaunch Hsettle _ _ _ _ _ H0 H) as (l & Hl & HR).
  unfold pool in Hl.
  destruct (window_launch_order offsets sched [] []) as (sched' & a & Hw).
  rewrite Hw, drain_launch_order in Hl. injection Hl as <-. exact HR.
Qed.

(** X9.  A crawl that returns records has called [fetchWithRetry] once
    for page 0 and then once for each remaining offset, in ascending
    order of the offsets, whatever the order in which the fetches
    settled. *)
Theorem X9_pages_are_requested_in_offset_order
  (domText : string -> string) (net : Z -> nat -> Outcome)
  (sig : Z -> nat -> bool) (rnd : nat -> string)
  (p : SearchParams) (sched : list nat) (arts : list Article) :
  outcome (fetchDBLPData domText net sig rnd p sched) = inr arts ->
  launches (observed (fetchDBLPData domText net sig rnd p sched))
  = requested_pages net sig p
  /\ StronglySorted Z.lt (requested_pages net sig p).
Proof.
  intros H. split.
  - revert H. unfold fetchDBLPData, requested_pages, remaining.
    destruct (String.eqb (Query.effective p) ""); [discriminate |].
    destruct (snd (fetchWithRetry (net 0%Z) (sig 0%Z) 3))
      as [[ | | | ] | [status [ | total hit]]]; try discriminate.
    cbv zeta.
    destruct (Js.min _ _) as [t | ]; [ | reflexivity].
    destruct (_ <? _)%Z; [ | reflexivity].
    match goal with
    | |- context [pool ?l ?s ?o ?sc ?st] =>
        destruct (pool l s o sc st) as [[e st'] | st'] eqn:Hp
    end; [discriminate |].
    intros _. cbn [observed]. by rewrite (pool_launches _ _ _ _ _ _ _ Hp).
  - unfold requested_pages.
    destruct (snd (fetchWithRetry (net 0%Z) (sig 0%Z) 3))
      as [? | [status [ | total hit]]]; try constructor.
    + apply remaining_sorted.
    + unfold remaining.
      destruct (Js.min _ _) as [t | ]; [ | constructor].
      destruct (_ <? _)%Z; [ | constructor].
      eapply Forall_impl; [apply offsets_from_bounds |].
      unfold BATCH_SIZE. simpl. lia.
Qed.

Lemma X9_pages_are_requested_in_offset_order_witness :
  outcome (fetchDBLPData Sample.plain (Sample.source 300) Sample.never
             Sample.no_random (Sample.params 300 all) [1%nat])
  = inr (finish Sample.plain Sample.no_random (Sample.params 300 all) 300
           (Sample.page 0 100 ++ Sample.page 200 100 ++ Sample.page 100 100))
  /\ launches (observed (fetchDBLPData Sample.plain (Sample.source 300)
                           Sample.never Sample.no_random
                           (Sample.params 300 all) [1%nat]))
     = requested_pages (Sample.source 300) Sample.never
         (Sample.params 300 all)
  /\ StronglySorted Z.lt
       (requested_pages (Sample.source 300) Sample.never
          (Sample.params 300 all)).
Proof.
  assert (H : outcome (fetchDBLPData Sample.plain (Sample.source 300)
                         Sample.never Sample.no_random
                         (Sample.params 300 all) [1%nat])
              = inr (finish Sample.plain Sample.no_random
                       (Sample.params 300 all) 300
                       (Sample.page 0 100 ++ Sample.page 200 100
                        ++ Sample.page 100 100)))
    by (vm_compute; reflexivity).
  split; [exact H |].
  exact (X9_pages_are_requested_in_offset_order _ _ _ _ _ _ _ H).
Defined.

Lemma settle_flight k active c m :
  active <> [] ->
  exists a,
    settle flight_settle k active (c, m) = inr (a, (Nat.pred c, m))
    /\ length a = Nat.pred (length active).
Proof.
  intros Hne. unfold settle. cbv zeta.
  assert (Hlt : (k mod length active < length active)%nat).
  { apply Nat.mod_upper_bound. destruct active; simpl; congruence. }
  destruct (lookup_lt_is_Some_2 _ _ Hlt) as [f Hf]. rewrite Hf.
  eexists. split; [reflexivity |].
  rewrite length_delete by eauto. lia.
Qed.

(** [launched] fetches were launched before; [m] is the largest number of
    fetches that were in flight together. *)
Lemma window_flight offsets : forall sched active c m launched,
  c = length active ->
  (c <= 7)%nat -> (c <= launched)%nat ->
  ((launched < 8)%nat -> c = launched) ->
  m = Nat.min launched 8 ->
  exists sched' a,
    window flight_launch flight_settle offsets sched active (c, m)
    = inr (sched', a,
           (length a, Nat.min (launched + length offsets) 8))
    /\ (length a <= 7)%nat
    /\ (length a <= launched + length offsets)%nat
    /\ ((launched + length offsets < 8)%nat ->
        length a = (launched + length offsets)%nat).
Proof.
  induction offsets as [ | f rest IH]; cbn [window];
    intros sched active c m launched Hc H7 Hle Hsmall Hm.
  - exists sched, active. subst c m. rewrite Nat.add_0_r.
    repeat split; [lia | lia | lia].
  - assert (Hlen : length (active ++ [f]) = S c)
      by (rewrite length_app; simpl; lia).
    change (flight_launch f (c, m)) with (S c, Nat.max m (S c)).
    destruct (Nat.leb_spec CONCURRENCY_LIMIT (length (active ++ [f])))
      as [Hfull | Hroom]; unfold CONCURRENCY_LIMIT in *.
    + destruct (settle_flight (hd O sched) (active ++ [f]) (S c)
                  (Nat.max m (S c))) as (a0 & -> & Ha0);
        [by destruct active |].
      cbv beta iota.
      destruct (IH (tl sched) a0 (Nat.pred (S c)) (Nat.max m (S c))
                  (S launched)) as (sched' & a & -> & Hb1 & Hb2 & Hb3);
        try lia.
      exists sched', a. cbn [length].
      replace (launched + S (length rest))%nat
        with (S launched + length rest)%nat by lia.
      repeat split; [lia | lia | lia].
    + destruct (IH sched (active ++ [f]) (S c) (Nat.max m (S c))
                  (S launched)) as (sched' & a & -> & Hb1 & Hb2 & Hb3);
        try lia.
      exists sched', a. cbn [length].
      replace (launched + S (length rest))%nat
        with (S launched + length rest)%nat by lia.
      repeat split; [lia | lia | lia].
Qed.

Lemma drain_flight n : forall sched active c m,
  c = length active -> n = length active ->
  drain flight_settle n sched active (c, m) = inr (0%nat, m).
Proof.
  induction n as [ | n IH]; cbn [drain]; intros sched active c m Hc Hn.
  - by subst c; rewrite <- Hn.
  - destruct (settle_flight (hd O sched) active c m) as (a & -> & Ha);
      [by destruct active |].
    cbv beta iota. apply IH; lia.
Qed.

(** X10.  The pool never has more than [CONCURRENCY_LIMIT] fetches in
    flight.  Counting one up at each launch and one down at each
    settlement, the count is back at 0 when the pool ends, and the
    largest count reached by a pool that launches every offset is the
    number of offsets or 8, whichever is smaller, under every
    schedule. *)
Theorem X10_at_most_eight_fetches_in_flight
  (offsets : list Z) (sched : list nat) :
  pool flight_launch flight_settle offsets sched (0%nat, 0%nat)
  = inr (0%nat, Nat.min (length offsets) CONCURRENCY_LIMIT).
Proof.
  unfold pool.
  destruct (window_flight offsets sched [] 0%nat 0%nat 0%nat)
    as (sched' & a & -> & _); try (simpl; lia).
  by rewrite (drain_flight (length a) sched' a (length a) _ eq_refl eq_refl).
Qed.








(** X14.  Within one crawl the [fetchedCount] passed to [onProgress] never
    decreases, and every call after the first one passes a [fetchedCount]
    that is at most its [targetCount]; this holds under every schedule
    and also of a crawl that ends on an error. *)
Theorem X14_progress_is_monotone_and_bounded_after_the_first_call
  (domText : string -> string) (net : Z -> nat -> Outcome)
  (sig : Z -> nat -> bool) (rnd : nat -> string)
  (p : SearchParams) (sched : list nat) :
  StronglySorted Z.le
    (map fst (progress_calls
                (observed (fetchDBLPData domText net sig rnd p sched))))
  /\ Forall (fun call => (fst call <= snd call)%Z)
       (tl (progress_calls
              (observed (fetchDBLPData domText net sig rnd p sched)))).
Proof. apply progress_monotone_and_bounded_after_first. Qed.

(** X15.  The offsets computed for the remaining pages are, in ascending
    order, exactly the positive multiples of the page size 100 that are
    below the target: none is left out and none is added. *)
Theorem X15_remaining_offsets_are_the_multiples_below_the_target (t : Z) :
  StronglySorted Z.lt (offsetsToFetch t)
  /\ forall f, In f (offsetsToFetch t) <->
               exists k : Z, (1 <= k)%Z /\ f = (100 * k)%Z /\ (f < t)%Z.
Proof. exact (offsetsToFetch_spec t). Qed.


(** ** The tokenizer *)

Lemma lower_idempotent (c : ascii) : Js.lower (Js.lower c) = Js.lower c.
Proof. by destruct c as [[] [] [] [] [] [] [] []]. Qed.





Lemma token_char_spec (c : ascii) :
  token_char c
  = kept_char c && negb (Js.is_space c) && Ascii.eqb (Js.lower c) c.
Proof. by destruct c as [[] [] [] [] [] [] [] []]. Qed.

Lemma token_char_fixed (c : ascii) :
  token_char c = true ->
  Js.lower c = c /\ kept_char c = true /\ Js.is_space c = false.
Proof.
  rewrite token_char_spec. intros H.
  apply andb_true_iff in H as [H Hl]. apply andb_true_iff in H as [Hk Hs].
  apply Ascii.eqb_eq in Hl. apply negb_true_iff in Hs. done.
Qed.

Lemma all_chars_app p (a b : string) :
  Js.all_chars p (a +:+ b) = Js.all_chars p a && Js.all_chars p b.
Proof.
  induction a as [ | c r IH]; simpl; [done |].
  by rewrite IH, andb_assoc.
Qed.

Lemma app_snoc (cur : string) (c : ascii) (r : string) :
  (cur +:+ String c "") +:+ r = cur +:+ String c r.
Proof.
  induction cur as [ | d cur IH]; [reflexivity |].
  change (String d ((cur +:+ String c "") +:+ r)
          = String d (cur +:+ String c r)).
  by rewrite IH.
Qed.

Lemma app_empty_r (cur : string) : cur +:+ "" = cur.
Proof.
  induction cur as [ | d cur IH]; [reflexivity |].
  change (String d (cur +:+ "") = String d cur). by rewrite IH.
Qed.

Lemma normalised_chars (s : string) :
  Js.all_chars (fun c => kept_char c && Ascii.eqb (Js.lower c) c)
    (Js.filter_chars kept_char (Js.toLowerCase s)) = true.
Proof.
  induction s as [ | c r IH]; simpl; [done |].
  destruct (kept_char (Js.lower c)) eqn:Hk; simpl; [ | exact IH].
  by rewrite Hk, lower_idempotent, Ascii.eqb_refl, IH.
Qed.

Lemma split_go_pieces (s : string) : forall in_sep cur,
  Js.all_chars token_char cur = true ->
  Js.all_chars (fun c => kept_char c && Ascii.eqb (Js.lower c) c) s = true ->
  Forall (fun w => Js.all_chars token_char w = true) (split_go in_sep cur s).
Proof.
  induction s as [ | c r IH]; simpl; intros in_sep cur Hcur Hs.
  - by constructor.
  - apply andb_true_iff in Hs as [Hc Hr].
    destruct (Js.is_space c) eqn:Hsp.
    + destruct in_sep; [by apply IH |].
      constructor; [exact Hcur | by apply IH].
    + apply IH; [ | exact Hr].
      rewrite all_chars_app, Hcur. simpl.
      rewrite andb_true_r, token_char_spec, Hsp. simpl.
      apply andb_true_iff in Hc as [-> ->]. reflexivity.
Qed.

Lemma tokens_normalised (s w : string) :
  In w (tokenize s) ->
  (2 < String.length w)%nat
  /\ ~ In w STOP_WORDS
  /\ all_digits w = false
  /\ Js.all_chars token_char w = true.
Proof.
  unfold tokenize. intros H. apply filter_In in H as [Hin Hf].
  apply andb_true_iff in Hf as [Hf Hd]. apply andb_true_iff in Hf as [Hl Hs].
  apply Nat.ltb_lt in Hl. apply negb_true_iff in Hs, Hd.
  repeat split; [exact Hl | | exact Hd | ].
  - rewrite <- includes_In. congruence.
  - pose proof (split_go_pieces _ false "" eq_refl (normalised_chars s)) as Hp.
    apply list_elem_of_In in Hin.
    exact (proj1 (Forall_forall _ _) Hp w Hin).
Qed.

(** X18.  Every token has more than two characters, is not a stop word,
    is not a number, and is made of lower-case letters, digits,
    underscores and hyphens only. *)
Theorem X18_tokens_are_normalised (s w : string) :
  In w (tokenize s) ->
  (2 < String.length w)%nat
  /\ ~ In w STOP_WORDS
  /\ all_digits w = false
  /\ Js.all_chars token_char w = true.
Proof. apply tokens_normalised. Qed.

Lemma X18_tokens_are_normalised_witness :
  In "graph-based" (tokenize "A Survey of Graph-based Deep Learning (2020)")
  /\ (2 < String.length "graph-based")%nat
  /\ ~ In "graph-based" STOP_WORDS
  /\ all_digits "graph-based" = false
  /\ Js.all_chars token_char "graph-based" = true.
Proof.
  assert (H : In "graph-based"
                (tokenize "A Survey of Graph-based Deep Learning (2020)"))
    by (vm_compute; by left).
  split; [exact H |].
  exact (X18_tokens_are_normalised _ _ H).
Defined.

Lemma toLowerCase_token (w : string) :
  Js.all_chars token_char w = true -> Js.toLowerCase w = w.
Proof.
  induction w as [ | c r IH]; simpl; [done |].
  intros [Hc Hr]%andb_true_iff.
  destruct (token_char_fixed c Hc) as (-> & _). by rewrite IH.
Qed.

Lemma filter_chars_token (w : string) :
  Js.all_chars token_char w = true -> Js.filter_chars kept_char w = w.
Proof.
  induction w as [ | c r IH]; simpl; [done |].
  intros [Hc Hr]%andb_true_iff.
  destruct (token_char_fixed c Hc) as (_ & -> & _). by rewrite IH.
Qed.

Lemma split_go_token (w : string) : forall cur,
  Js.all_chars token_char w = true ->
  split_go false cur w = [cur +:+ w].
Proof.
  induction w as [ | c r IH]; simpl; intros cur.
  - intros _. by rewrite app_empty_r.
  - intros [Hc Hr]%andb_true_iff.
    destruct (token_char_fixed c Hc) as (_ & _ & ->).
    rewrite IH by exact Hr. by rewrite app_snoc.
Qed.

(** X19.  A token is a fixed point of [tokenize]: tokenizing a token of
    some text gives that token and nothing else.  A keyword taken from
    the output of [tokenize] is therefore found by the functions that
    look it up among the tokens of a title. *)
Theorem X19_a_token_tokenizes_to_itself (s w : string) :
  In w (tokenize s) -> tokenize w = [w].
Proof.
  intros H.
  destruct (tokens_normalised s w H) as (Hl & Hs & Hd & Hc).
  unfold tokenize.
  rewrite (toLowerCase_token w Hc), (filter_chars_token w Hc).
  unfold split_spaces. rewrite (split_go_token w "" Hc).
  change ("" +:+ w) with w. cbn [List.filter].
  apply Nat.ltb_lt in Hl. rewrite Hl, Hd. cbn [negb andb].
  destruct (includes STOP_WORDS w) eqn:Hi; [ | reflexivity].
  by apply includes_In in Hi.
Qed.

Lemma X19_a_token_tokenizes_to_itself_witness :
  In "graph-based" (tokenize "A Survey of Graph-based Deep Learning (2020)")
  /\ tokenize "graph-based" = ["graph-based"].
Proof.
  assert (H : In "graph-based"
                (tokenize "A Survey of Graph-based Deep Learning (2020)"))
    by (vm_compute; by left).
  split; [exact H |].
  exact (X19_a_token_tokenizes_to_itself _ _ H).
Defined.

(** ** The co-occurrence matrix *)

Lemma count_both_spec (articles : list Article) (k1 k2 : string) :
  Heatmap.count_both articles k1 k2
  = length (List.filter
              (fun a => includes (tokenize (title a)) k1
                        && includes (tokenize (title a)) k2) articles).
Proof.
  unfold Heatmap.count_both.
  exact (count_loop
           (fun a => includes (tokenize (title a)) k1
                     && includes (tokenize (title a)) k2) articles 0).
Qed.

Lemma filter_length_mono {A} (P Q : A -> bool) (l : list A) :
  (forall a, P a = true -> Q a = true) ->
  (length (List.filter P l) <= length (List.filter Q l))%nat.
Proof.
  intros HPQ. induction l as [ | a l IH]; simpl; [lia |].
  destruct (P a) eqn:HP.
  - rewrite (HPQ a HP). simpl. lia.
  - destruct (Q a); simpl; lia.
Qed.

Lemma count_both_sym (articles : list Article) (k1 k2 : string) :
  Heatmap.count_both articles k1 k2 = Heatmap.count_both articles k2 k1.
Proof.
  rewrite !count_both_spec. f_equal. apply filter_ext.
  intros a. apply andb_comm.
Qed.

Lemma count_both_diag (articles : list Article) (k1 k2 : string) :
  (Heatmap.count_both articles k1 k2 <= Heatmap.count_both articles k1 k1)%nat.
Proof.
  rewrite !count_both_spec. apply filter_length_mono.
  intros a [H _]%andb_true_iff. by rewrite H.
Qed.

Lemma heatmap_cells (articles : list Article) (topKeywords : list string)
  (c : Heatmap.Cell) :
  In c (Heatmap.generateCorrelationHeatmap articles topKeywords)
  <-> In (Heatmap.x c) (firstn 10 topKeywords)
      /\ In (Heatmap.y c) (firstn 10 topKeywords)
      /\ Heatmap.value c
         = Heatmap.count_both articles (Heatmap.x c) (Heatmap.y c)
      /\ (0 < Heatmap.value c)%nat.
Proof.
  unfold Heatmap.generateCorrelationHeatmap. cbv zeta.
  rewrite in_flat_map. split.
  - intros (k1 & Hk1 & Hin). apply in_flat_map in Hin as (k2 & Hk2 & Hin).
    destruct (Nat.ltb_spec 0 (Heatmap.count_both articles k1 k2))
      as [Hpos | _]; [ | destruct Hin].
    destruct Hin as [<- | []]. simpl. auto.
  - intros (Hx & Hy & Hv & Hpos). exists (Heatmap.x c). split; [exact Hx |].
    apply in_flat_map. exists (Heatmap.y c). split; [exact Hy |].
    rewrite <- Hv. apply Nat.ltb_lt in Hpos. rewrite Hpos.
    left. by destruct c.
Qed.

(** X20.  The cells returned by [generateCorrelationHeatmap] are exactly
    the pairs of terms taken from the first ten keywords for which at
    least one title holds both terms, each with the number of such
    titles; keywords after the tenth and pairs that never occur together
    give no cell. *)
Theorem X20_heatmap_cells_are_the_positive_cooccurrences
  (articles : list Article) (topKeywords : list string) (c : Heatmap.Cell) :
  In c (Heatmap.generateCorrelationHeatmap articles topKeywords)
  <-> In (Heatmap.x c) (firstn 10 topKeywords)
      /\ In (Heatmap.y c) (firstn 10 topKeywords)
      /\ Heatmap.value c
         = length (List.filter
                     (fun a => includes (tokenize (title a)) (Heatmap.x c)
                               && includes (tokenize (title a)) (Heatmap.y c))
                     articles)
      /\ (0 < Heatmap.value c)%nat.
Proof. rewrite heatmap_cells. by rewrite count_both_spec. Qed.

(** X21.  The matrix is symmetric and keeps its diagonal: with a cell for
    the pair [(a, b)] it holds the cell for [(b, a)] with the same value,
    and the cell that pairs [a] with itself, whose value is at least as
    large.  (The comment of line 115 announces that self-correlation is
    left out; the code leaves out only the pairs with count 0.) *)
Theorem X21_heatmap_is_symmetric_and_keeps_self_pairs
  (articles : list Article) (topKeywords : list string)
  (a b : string) (v : nat) :
  In {| Heatmap.x := a; Heatmap.y := b; Heatmap.value := v |}
    (Heatmap.generateCorrelationHeatmap articles topKeywords) ->
  In {| Heatmap.x := b; Heatmap.y := a; Heatmap.value := v |}
    (Heatmap.generateCorrelationHeatmap articles topKeywords)
  /\ exists va,
       (v <= va)%nat
       /\ In {| Heatmap.x := a; Heatmap.y := a; Heatmap.value := va |}
            (Heatmap.generateCorrelationHeatmap articles topKeywords).
Proof.
  intros H. apply heatmap_cells in H as (Hx & Hy & Hv & Hpos).
  simpl in *. split.
  - apply heatmap_cells. simpl. rewrite count_both_sym. auto.
  - exists (Heatmap.count_both articles a a).
    pose proof (count_both_diag articles a b) as Hd.
    split; [lia |]. apply heatmap_cells. simpl.
    repeat split; [exact Hx | exact Hx | lia].
Qed.

Lemma X21_heatmap_is_symmetric_and_keeps_self_pairs_witness :
  In {| Heatmap.x := "graph"; Heatmap.y := "neural"; Heatmap.value := 1 |}
    (Heatmap.generateCorrelationHeatmap Sample.trend_records
       ["graph"; "neural"])
  /\ In {| Heatmap.x := "neural"; Heatmap.y := "graph"; Heatmap.value := 1 |}
       (Heatmap.generateCorrelationHeatmap Sample.trend_records
          ["graph"; "neural"])
  /\ exists va,
       (1 <= va)%nat
       /\ In {| Heatmap.x := "graph"; Heatmap.y := "graph";
                Heatmap.value := va |}
            (Heatmap.generateCorrelationHeatmap Sample.trend_records
               ["graph"; "neural"]).
Proof.
  assert (H : In {| Heatmap.x := "graph"; Heatmap.y := "neural";
                    Heatmap.value := 1 |}
                (Heatmap.generateCorrelationHeatmap Sample.trend_records
                   ["graph"; "neural"]))
    by (vm_compute; right; by left).
  split; [exact H |].
  exact (X21_heatmap_is_symmetric_and_keeps_self_pairs _ _ _ _ _ H).
Defined.

(** ** Suggestions of similar records *)

(** What every suggestion is, whatever its rank. *)
Lemma similar_results (target : Article) (allArticles : list Article)
  (limit : nat) (r : SimilarityResult) :
  In r (findSimilarArticles target allArticles limit) ->
  In (article r) allArticles
  /\ id (article r) <> id target
  /\ r = similarity (new_Set (tokenize (title target))) (article r)
  /\ above_threshold (score r) = true.
Proof.
  unfold findSimilarArticles. intros H.
  apply list_elem_of_In, elem_of_take in H as (i & H & _).
  apply list_elem_of_lookup_2, list_elem_of_In in H.
  apply (Permutation_in _ (sort_perm _ _)), filter_In in H as [H Hth].
  apply in_map_iff in H as (a & <- & Ha).
  apply filter_In in Ha as [Ha Hid].
  repeat split; try assumption.
  cbn [similarity article]. intros Heq. rewrite Heq, String.eqb_refl in Hid.
  discriminate.
Qed.

(** X13.  [findSimilarArticles] returns at most [limit] suggestions; each
    is a record of the collection whose id differs from the id of the
    target, and it shares at least one term with the title of the target:
    its [sharedTerms] are exactly the tokens of its title that are tokens
    of the title of the target.  The target itself, any record with the
    same id, and a record without a common term are never suggested. *)
Theorem X13_suggestions_share_a_term_with_the_target
  (target : Article) (allArticles : list Article) (limit : nat) :
  (length (findSimilarArticles target allArticles limit) <= limit)%nat
  /\ Forall
       (fun r =>
          In (article r) allArticles
          /\ id (article r) <> id target
          /\ sharedTerms r <> []
          /\ forall t,
               In t (sharedTerms r)
               <-> In t (tokenize (title (article r)))
                   /\ In t (tokenize (title target)))
       (findSimilarArticles target allArticles limit).
Proof.
  split.
  - unfold findSimilarArticles. rewrite length_take. lia.
  - apply List.Forall_forall. intros r Hr.
    apply similar_results in Hr as (Ha & Hid & Hr & Hth).
    split; [exact Ha | split; [exact Hid |]].
    rewrite Hr in Hth |- *. cbn [similarity sharedTerms score] in *.
    split.
    + intros Hnil. rewrite Hnil in Hth. discriminate.
    + intros t. rewrite filter_In, includes_In.
      destruct (new_Set_spec (tokenize (title target))) as [_ Hin].
      by rewrite Hin.
Qed.

(** ** The keyword ranking *)

Lemma bump_keys t : forall counts,
  map fst (bump t counts)
  = if includes (map fst counts) t then map fst counts
    else map fst counts ++ [t].
Proof.
  induction counts as [ | [k v] r IH]; [done |].
  cbn [bump map fst includes existsb]. fold (includes (map fst r) t).
  rewrite (String.eqb_sym t k).
  destruct (String.eqb k t); [done |].
  cbn [map fst orb]. rewrite IH. by destruct (includes (map fst r) t).
Qed.

Lemma bump_In t k v : forall counts,
  NoDup (map fst counts) ->
  In (k, v) (bump t counts)
  <-> (k <> t /\ In (k, v) counts)
      \/ (k = t /\ ((exists u, In (k, u) counts /\ v = S u)
                    \/ (~ In k (map fst counts) /\ v = 1%nat))).
Proof.
  induction counts as [ | [k' v'] r IH]; intros Hnd.
  - simpl. split.
    + intros [[= <- <-] | []]. right. split; [done |]. right. tauto.
    + intros [[_ []] | [-> [(u & [] & _) | [_ ->]]]]. by left.
  - apply NoDup_cons in Hnd as [Hk' Hnd]. cbn [bump].
    destruct (String.eqb_spec k' t) as [-> | Hne].
    + cbn [In map fst]. split.
      * intros [[= <- <-] | Hin].
        -- right. split; [done |]. left. exists v'. split; [by left | done].
        -- left. split; [ | by right]. intros ->.
           apply Hk', list_elem_of_In, in_map_iff. by exists (t, v).
      * intros [[Hkt [[= -> ->] | Hin]] | [-> [(u & [[= ->] | Hin] & ->) | [Hno _]]]].
        -- done.
        -- by right.
        -- by left.
        -- exfalso. apply Hk', list_elem_of_In, in_map_iff. by exists (t, u).
        -- exfalso. apply Hno. by left.
    + cbn [In map fst]. rewrite (IH Hnd). split.
      * intros [[= <- <-] | [[Hkt Hin] | [-> [(u & Hin & ->) | [Hno ->]]]]].
        -- left. split; [done | by left].
        -- left. split; [done | by right].
        -- right. split; [done |]. left. exists u. split; [by right | done].
        -- right. split; [done |]. right. split; [ | done].
           intros [? | ?]; [done | by apply Hno].
      * intros [[Hkt [[= -> ->] | Hin]] | [-> [(u & [[= -> ->] | Hin] & ->) | [Hno ->]]]].
        -- by left.
        -- right. left. by split.
        -- done.
        -- right. right. split; [done |]. left. by exists u.
        -- right. right. split; [done |]. right. split; [ | done].
           intros ?. apply Hno. by right.
Qed.

Lemma occurrences_snoc t l x :
  occurrences t (l ++ [x])
  = (occurrences t l + if String.eqb t x then 1 else 0)%nat.
Proof.
  unfold occurrences. rewrite List.filter_app, length_app. simpl.
  by destruct (String.eqb t x).
Qed.

Lemma occurrences_pos t l : In t l <-> (1 <= occurrences t l)%nat.
Proof.
  unfold occurrences. induction l as [ | x l IH]; simpl; [lia |].
  destruct (String.eqb_spec t x) as [-> | Hne]; simpl.
  - split; [lia | by left].
  - rewrite <- IH. split; [intros [? | ?]; [congruence | done] | by right].
Qed.

(** The table of counts after the tokens [l]: one entry for each token
    other than [__proto__], in the order of the first occurrences, with
    the number of its occurrences. *)
Lemma counts_spec (l : list string) :
  NoDup (map fst (foldl count_token [] l))
  /\ forall k v,
       In (k, v) (foldl count_token [] l)
       <-> k <> "__proto__" /\ In k l /\ v = occurrences k l.
Proof.
  induction l as [ | x l IH] using rev_ind.
  - split; [constructor |]. intros k v. simpl. tauto.
  - destruct IH as [Hnd Hin]. rewrite foldl_app. cbn [foldl].
    unfold count_token at 1 3.
    destruct (String.eqb_spec x "__proto__") as [-> | Hx].
    + split; [exact Hnd |]. intros k v. rewrite Hin, in_app_iff,
        occurrences_snoc. cbn [In].
      destruct (String.eqb_spec k "__proto__") as [-> | Hk];
        [tauto |].
      split.
      * intros (_ & H & ->). split; [done |]. split; [by left | lia].
      * intros (_ & [H | [H | []]] & ->); [ | congruence].
        split; [done |]. split; [done | lia].
    + split.
      * rewrite bump_keys.
        destruct (includes _ x) eqn:Hinc; [exact Hnd |].
        apply NoDup_app. split; [exact Hnd |].
        split; [ | apply NoDup_singleton].
        intros y Hy ->%list_elem_of_singleton.
        apply list_elem_of_In, includes_In in Hy. congruence.
      * intros k v. rewrite (bump_In _ _ _ _ Hnd), in_app_iff,
          occurrences_snoc. cbn [In].
        destruct (String.eqb_spec k x) as [-> | Hkx].
        -- split.
           ++ intros [[? _] | [_ [(u & Hu & ->) | [Hno ->]]]]; [done | | ].
              ** apply Hin in Hu as (_ & Hl & ->).
                 split; [done |]. split; [by left | lia].
              ** split; [done |]. split; [right; by left |].
                 assert (Hz : ~ In x l).
                 { intros Hl. apply Hno, in_map_iff.
                   exists (x, occurrences x l). split; [done |].
                   by apply Hin. }
                 apply (not_iff_compat (occurrences_pos x l)) in Hz. lia.
           ++ intros (_ & _ & ->). right. split; [done |].
              destruct (in_dec String.string_dec x l) as [Hl | Hl].
              ** left. exists (occurrences x l). split; [ | lia].
                 by apply Hin.
              ** right. split.
                 --- intros ((k' & v') & Hk' & Hkv)%in_map_iff.
                     simpl in Hk'. subst k'. by apply Hin in Hkv as (_ & ? & _).
                 --- apply (not_iff_compat (occurrences_pos x l)) in Hl. lia.
        -- rewrite Hin. split.
           ++ intros [(_ & ? & ? & ->) | [? _]]; [ | done].
              split; [done |]. split; [by left | lia].
           ++ intros (? & [? | [? | []]] & ->); [ | congruence].
              left. split; [done |]. split; [done |]. split; [done | lia].
Qed.

Lemma StronglySorted_weaken {A} (R S : A -> A -> Prop) (l : list A) :
  (forall a b, R a b -> S a b) -> StronglySorted R l -> StronglySorted S l.
Proof.
  intros HRS. induction 1 as [ | x l Hl IH Hx]; constructor; [exact IH |].
  eapply Forall_impl; [exact Hx |]. intros y. apply HRS.
Qed.

(** What [extractKeywords] returns, when no title holds the token
    [constructor]. *)
Lemma keywords_spec (articles : list Article) (limit : nat)
  (kws : list KeywordData) :
  extractKeywords articles limit = Some kws ->
  (length kws <= limit)%nat
  /\ NoDup (map term kws)
  /\ Forall
       (fun k =>
          term k <> "__proto__"
          /\ In (term k) (all_tokens articles)
          /\ value k = occurrences (term k) (all_tokens articles))
       kws
  /\ StronglySorted (fun a b => (value b <= value a)%nat) kws
  /\ forall t,
       In t (all_tokens articles) -> t <> "__proto__" ->
       ~ In t (map term kws) ->
       length kws = limit
       /\ Forall (fun k => (occurrences t (all_tokens articles)
                            <= value k)%nat) kws.
Proof.
  unfold extractKeywords. cbv zeta.
  destruct (includes (all_tokens articles) "constructor"); [discriminate |].
  intros [= <-].
  destruct (counts_spec (all_tokens articles)) as [Hnd Hin].
  set (counts := foldl count_token [] (all_tokens articles)) in *.
  set (lt := fun a b : KeywordData => (value b <? value a)%nat).
  set (entries := map (fun e => {| term := fst e; value := snd e |}) counts).
  assert (Hperm : Js.sort lt entries ≡ₚ entries) by apply sort_perm.
  assert (Hterms : map term entries = map fst counts).
  { unfold entries. rewrite map_map. by apply map_ext. }
  assert (Hentry : forall k, In k (Js.sort lt entries) <->
                             In (term k, value k) counts).
  { intros k. split.
    - intros Hk. apply (Permutation_in _ Hperm), in_map_iff in Hk
        as ([t v] & <- & Hk). exact Hk.
    - intros Hk. apply (Permutation_in _ (Permutation_sym Hperm)).
      apply in_map_iff. exists (term k, value k). by destruct k. }
  assert (Hsorted : StronglySorted (fun a b => (value b <= value a)%nat)
                      (Js.sort lt entries)).
  { eapply StronglySorted_weaken; [ | apply (sort_sorted lt)].
    - intros a b. unfold lt. rewrite Nat.ltb_ge. lia.
    - intros a b. unfold lt. rewrite Nat.ltb_lt, Nat.ltb_ge. lia.
    - intros a b c. unfold lt. rewrite !Nat.ltb_ge. lia. }
  rewrite <- (take_drop limit (Js.sort lt entries)) in Hsorted.
  split; [rewrite length_take; lia |].
  split; [ | split; [ | split]].
  - eapply sublist_NoDup;
      [ | exact (fmap_sublist term _ _ (sublist_take _ limit))].
    change (NoDup (map term (Js.sort lt entries))).
    rewrite Hperm, Hterms. exact Hnd.
  - apply List.Forall_forall. intros k Hk.
    apply list_elem_of_In, elem_of_take in Hk as (i & Hk & _).
    apply list_elem_of_lookup_2, list_elem_of_In, Hentry, Hin in Hk.
    exact Hk.
  - by apply StronglySorted_app_1_l in Hsorted.
  - intros t Ht Hproto Hno.
    assert (Hk : In {| term := t; value := occurrences t (all_tokens articles) |}
                   (Js.sort lt entries)).
    { apply Hentry. cbn [term value]. by apply Hin. }
    rewrite <- (take_drop limit (Js.sort lt entries)), in_app_iff in Hk.
    destruct Hk as [Hk | Hk].
    { exfalso. apply Hno, in_map_iff. eexists. split; [ | exact Hk]. done. }
    split.
    + rewrite length_take. apply Nat.min_l.
      destruct (Nat.le_gt_cases limit (length (Js.sort lt entries)))
        as [? | Hlt]; [done |].
      rewrite drop_ge in Hk by lia. destruct Hk.
    + apply List.Forall_forall. intros k' Hk'.
      apply list_elem_of_In in Hk, Hk'.
      apply (StronglySorted_app_1_elem_of _ _ _ _ _ Hsorted Hk' Hk).
Qed.

(** X22.  [extractKeywords] returns at most [limit] keywords with distinct
    terms, each with the number of occurrences of its term among the
    tokens of all titles (a token counts once for each occurrence, also
    within one title), in descending order of that number; a token that
    is left out occurs at most as often as each keyword returned, and is
    left out only when [limit] keywords are returned.  The token
    [__proto__] is never a keyword, however frequent. *)
Theorem X22_keywords_are_the_most_frequent_tokens
  (articles : list Article) (limit : nat) (kws : list KeywordData) :
  extractKeywords articles limit = Some kws ->
  (length kws <= limit)%nat
  /\ NoDup (map term kws)
  /\ Forall
       (fun k =>
          term k <> "__proto__"
          /\ In (term k) (all_tokens articles)
          /\ value k = occurrences (term k) (all_tokens articles))
       kws
  /\ StronglySorted (fun a b => (value b <= value a)%nat) kws
  /\ forall t,
       In t (all_tokens articles) -> t <> "__proto__" ->
       ~ In t (map term kws) ->
       length kws = limit
       /\ Forall (fun k => (occurrences t (all_tokens articles)
                            <= value k)%nat) kws.
Proof. apply keywords_spec. Qed.

Lemma X22_keywords_are_the_most_frequent_tokens_witness :
  extractKeywords Sample.trend_records 2
  = Some [ {| term := "graph"; value := 2 |};
           {| term := "neural"; value := 2 |} ]
  /\ NoDup ["graph"; "neural"]
  /\ (occurrences "databases" (all_tokens Sample.trend_records) <= 2)%nat.
Proof.
  assert (H : extractKeywords Sample.trend_records 2
              = Some [ {| term := "graph"; value := 2 |};
                       {| term := "neural"; value := 2 |} ])
    by (vm_compute; reflexivity).
  destruct (X22_keywords_are_the_most_frequent_tokens _ _ _ H)
    as (_ & Hnd & _ & _ & Hout).
  split; [exact H | split; [exact Hnd |]].
  destruct (Hout "databases") as [_ Hle].
  - vm_compute. tauto.
  - discriminate.
  - simpl. intros [? | [? | []]]; discriminate.
  - by apply Forall_inv in Hle.
Defined.



(** ** The citation key *)

Lemma app_assoc_s (a b c : string) : (a +:+ b) +:+ c = a +:+ (b +:+ c).
Proof.
  induction a as [ | d a IH]; [reflexivity |].
  change (String d ((a +:+ b) +:+ c) = String d (a +:+ (b +:+ c))).
  by rewrite IH.
Qed.

(** [split('/').pop()] gives the part of the string after its last
    slash. *)
Lemma last_segment_spec (s : string) : forall cur,
  Js.all_chars Query.not_slash cur = true ->
  Js.all_chars Query.not_slash (BibTeX.last_segment cur s) = true
  /\ (cur +:+ s = BibTeX.last_segment cur s
      \/ exists pre,
           cur +:+ s = pre +:+ "/" +:+ BibTeX.last_segment cur s).
Proof.
  induction s as [ | c r IH]; intros cur Hcur; cbn [BibTeX.last_segment].
  - split; [exact Hcur |]. left. apply app_empty_r.
  - destruct (Ascii.eqb_spec c "/") as [-> | Hc].
    + destruct (IH "" eq_refl) as [Hall Hs]. split; [exact Hall |].
      right. change ("" +:+ r) with r in Hs.
      set (seg := BibTeX.last_segment "" r) in *.
      destruct Hs as [Hs | (pre & Hs)].
      * exists cur. by rewrite <- Hs.
      * exists (cur +:+ "/" +:+ pre). rewrite !app_assoc_s, Hs.
        reflexivity.
    + assert (Hcur' : Js.all_chars Query.not_slash (cur +:+ String c "")
                      = true).
      { rewrite all_chars_app, Hcur. simpl. unfold Query.not_slash.
        by destruct (Ascii.eqb_spec c "/"). }
      destruct (IH _ Hcur') as [Hall Hs]. split; [exact Hall |].
      by rewrite app_snoc in Hs.
Qed.

(** X24.  The citation key of a BibTeX entry is the part of the DBLP key
    after its last slash: it holds no slash, and the key is either that
    part alone or ends with a slash followed by it.  When that part is
    empty (the key is empty or ends with a slash), or when the record has
    no key, the citation key is [dblp_] followed by a random number. *)
Theorem X24_cite_key_is_the_last_segment_of_the_key
  (rnd : nat) (a : Article) :
  match key a with
  | Some k =>
      let seg := BibTeX.last_segment "" k in
      Js.all_chars Query.not_slash seg = true
      /\ (k = seg \/ exists pre, k = pre +:+ "/" +:+ seg)
      /\ BibTeX.cite_key rnd a
         = if String.eqb seg "" then "dblp_" +:+ pretty rnd else seg
  | None => BibTeX.cite_key rnd a = "dblp_" +:+ pretty rnd
  end.
Proof.
  unfold BibTeX.cite_key. destruct (key a) as [k | ]; [ | reflexivity].
  cbv zeta. destruct (last_segment_spec k "" eq_refl) as [Hall Hs].
  change ("" +:+ k) with k in Hs. by repeat split.
Qed.


(** ** Stream keys read from a URL *)

Lemma strip_prefix_spec (p : string) : forall s r,
  Query.strip_prefix p s = Some r -> s = p +:+ r.
Proof.
  induction p as [ | a p IH]; intros s r; cbn [Query.strip_prefix].
  - by intros [= ->].
  - destruct s as [ | b s]; [discriminate |].
    destruct (Ascii.eqb_spec a b) as [-> | _]; [ | discriminate].
    intros H. apply IH in H. rewrite H. reflexivity.
Qed.

Lemma strip_prefix_app (p r : string) :
  Query.strip_prefix p (p +:+ r) = Some r.
Proof.
  induction p as [ | a p IH]; [reflexivity |].
  change (String a p +:+ r) with (String a (p +:+ r)).
  cbn [Query.strip_prefix]. by rewrite Ascii.eqb_refl.
Qed.

Lemma take_while_spec (p : ascii -> bool) (s : string) :
  Js.all_chars p (Query.take_while p s) = true
  /\ exists rest,
       s = Query.take_while p s +:+ rest
       /\ match rest with
          | EmptyString => True
          | String c _ => p c = false
          end.
Proof.
  induction s as [ | c r (Hall & rest & Hr & Hrest)];
    cbn [Query.take_while].
  - split; [reflexivity |]. by exists "".
  - destruct (p c) eqn:Hc.
    + split; [simpl; by rewrite Hc |].
      exists rest. split; [ | exact Hrest].
      change (String c r = String c (Query.take_while p r +:+ rest)).
      by rewrite <- Hr.
    + split; [reflexivity |]. exists (String c r). by split.
Qed.

Lemma stream_of_spec (head s m : string) :
  Query.stream_of head s = Some m ->
  exists name rest,
    s = "db/" +:+ head +:+ name +:+ rest
    /\ name <> ""
    /\ Js.all_chars Query.not_slash name = true
    /\ (rest = "" \/ exists r, rest = "/" +:+ r)
    /\ m = head +:+ name.
Proof.
  unfold Query.stream_of.
  destruct (Query.strip_prefix ("db/" +:+ head) s) as [r | ] eqn:Hp;
    [ | discriminate].
  apply strip_prefix_spec in Hp. cbv zeta.
  destruct (String.eqb_spec (Query.take_while Query.not_slash r) "")
    as [ | Hne]; [discriminate |].
  intros [= <-].
  destruct (take_while_spec Query.not_slash r)
    as (Hall & rest & Hr & Hrest).
  exists (Query.take_while Query.not_slash r), rest.
  split; [ | split; [exact Hne | split; [exact Hall | split]]].
  - rewrite Hp, Hr at 1. by rewrite !app_assoc_s.
  - destruct rest as [ | c rest]; [by left | right].
    unfold Query.not_slash in Hrest.
    destruct (Ascii.eqb_spec c "/") as [-> | ]; [ | discriminate].
    by exists rest.
  - reflexivity.
Qed.

Lemma stream_match_spec (s : string) : forall m,
  Query.stream_match s = Some m ->
  exists pre head name rest,
    s = pre +:+ "db/" +:+ head +:+ name +:+ rest
    /\ (head = "journals/" \/ head = "conf/")
    /\ name <> ""
    /\ Js.all_chars Query.not_slash name = true
    /\ (rest = "" \/ exists r, rest = "/" +:+ r)
    /\ m = head +:+ name.
Proof.
  assert (Hhere : forall s m, Query.stream_here s = Some m ->
    exists head name rest,
      s = "db/" +:+ head +:+ name +:+ rest
      /\ (head = "journals/" \/ head = "conf/")
      /\ name <> ""
      /\ Js.all_chars Query.not_slash name = true
      /\ (rest = "" \/ exists r, rest = "/" +:+ r)
      /\ m = head +:+ name).
  { clear s. intros s m. unfold Query.stream_here.
    destruct (Query.stream_of "journals/" s) as [m' | ] eqn:Hj.
    - intros [= <-].
      apply stream_of_spec in Hj as (name & rest & ? & ? & ? & ? & ?).
      exists "journals/", name, rest. tauto.
    - intros Hc.
      apply stream_of_spec in Hc as (name & rest & ? & ? & ? & ? & ?).
      exists "conf/", name, rest. tauto. }
  induction s as [ | c r IH]; intros m; cbn [Query.stream_match].
  - destruct (Query.stream_here "") as [m' | ] eqn:Hh; [ | discriminate].
    intros [= <-].
    apply Hhere in Hh as (head & name & rest & ? & ?).
    by exists "", head, name, rest.
  - destruct (Query.stream_here (String c r)) as [m' | ] eqn:Hh.
    + intros [= <-].
      apply Hhere in Hh as (head & name & rest & ? & ?).
      by exists "", head, name, rest.
    + intros H.
      apply IH in H as (pre & head & name & rest & -> & H).
      by exists (String c pre), head, name, rest.
Qed.

Lemma stream_match_here (s : string) :
  Query.stream_here s <> None -> Query.stream_match s <> None.
Proof.
  intros H. destruct s; cbn [Query.stream_match];
    by destruct (Query.stream_here _).
Qed.

Lemma stream_match_later (c : ascii) (s : string) :
  Query.stream_match s <> None -> Query.stream_match (String c s) <> None.
Proof.
  intros H. cbn [Query.stream_match].
  by destruct (Query.stream_here (String c s)).
Qed.

Lemma stream_match_found (head name rest : string) (c : ascii) :
  head = "journals/" \/ head = "conf/" ->
  c <> "/"%char ->
  forall pre,
    Query.stream_match (pre +:+ "db/" +:+ head +:+ String c name +:+ rest)
    <> None.
Proof.
  intros Hhead Hc.
  assert (Hhere : Query.stream_here
                    ("db/" +:+ head +:+ String c name +:+ rest) <> None).
  { unfold Query.stream_here.
    assert (Hof : Query.stream_of head
                    ("db/" +:+ head +:+ String c name +:+ rest) <> None).
    { unfold Query.stream_of.
      replace ("db/" +:+ head +:+ String c name +:+ rest)
        with (("db/" +:+ head) +:+ (String c name +:+ rest))
        by (by rewrite !app_assoc_s).
      rewrite strip_prefix_app.
      change (String c name +:+ rest) with (String c (name +:+ rest)).
      cbn [Query.take_while]. unfold Query.not_slash at 1.
      destruct (Ascii.eqb_spec c "/") as [? | _]; [done |].
      cbn [negb String.eqb]. discriminate. }
    destruct Hhead as [-> | ->].
    - by destruct (Query.stream_of "journals/" _).
    - destruct (Query.stream_of "journals/" _); [discriminate | exact Hof]. }
  induction pre as [ | d pre IH].
  - change ("" +:+ "db/" +:+ head +:+ String c name +:+ rest)
      with ("db/" +:+ head +:+ String c name +:+ rest).
    by apply stream_match_here.
  - change (String d pre +:+ "db/" +:+ head +:+ String c name +:+ rest)
      with (String d (pre +:+ "db/" +:+ head +:+ String c name +:+ rest)).
    by apply stream_match_later.
Qed.

(** X25.  In URL mode a query in which [db/journals/NAME] or
    [db/conf/NAME] can be read is turned into the stream query
    [stream:journals/NAME:] or [stream:conf/NAME:], where [NAME] is not
    empty, holds no slash and runs up to the next slash or to the end of
    the query; such a query is never refused as empty.  Every query that
    holds [db/journals/] or [db/conf/] followed by a character other than
    a slash is read in this way. *)
Theorem X25_a_dblp_url_gives_a_stream_query
  (p : SearchParams) (m : string) :
  mode p = url_mode ->
  Query.stream_match (query p) = Some m ->
  Query.effective p = "stream:" +:+ m +:+ ":"
  /\ Query.effective p <> ""
  /\ (exists pre head name rest,
        query p = pre +:+ "db/" +:+ head +:+ name +:+ rest
        /\ (head = "journals/" \/ head = "conf/")
        /\ name <> ""
        /\ Js.all_chars Query.not_slash name = true
        /\ (rest = "" \/ exists r, rest = "/" +:+ r)
        /\ m = head +:+ name)
  /\ forall (head name rest pre : string) (c : ascii),
       head = "journals/" \/ head = "conf/" ->
       c <> "/"%char ->
       Query.stream_match (pre +:+ "db/" +:+ head +:+ String c name +:+ rest)
       <> None.
Proof.
  intros Hmode Hm.
  assert (Heff : Query.effective p = "stream:" +:+ m +:+ ":")
    by (unfold Query.effective; by rewrite Hmode, Hm).
  split; [exact Heff | split; [by rewrite Heff | split]].
  - by apply stream_match_spec.
  - intros head name rest pre c Hhead Hc.
    by apply stream_match_found.
Qed.

Lemma X25_a_dblp_url_gives_a_stream_query_witness :
  let p := {| mode := url_mode;
              query := "https://dblp.org/db/journals/tods/index.html";
              yearStart := None; yearEnd := None; typeFilter := all;
              maxResults := 50 |} in
  mode p = url_mode
  /\ Query.stream_match (query p) = Some "journals/tods"
  /\ Query.effective p = "stream:journals/tods:".
Proof.
  cbv zeta. split; [reflexivity |].
  split; [vm_compute; reflexivity |].
  exact (proj1 (X25_a_dblp_url_gives_a_stream_query
                  {| mode := url_mode;
                     query := "https://dblp.org/db/journals/tods/index.html";
                     yearStart := None; yearEnd := None; typeFilter := all;
                     maxResults := 50 |}
                  "journals/tods" eq_refl eq_refl)).
Defined.

(** ** The list handlers of the application *)

Lemma visible_set_selected filters b a :
  App.visible filters (App.set_selected b a) = App.visible filters a.
Proof. reflexivity. Qed.

Lemma filter_select (filters : App.FilterConfig) (ids : list string) (b : bool) :
  forall prev,
    (forall a, In a prev -> App.visible filters a = true ->
               includes ids (id a) = true) ->
    List.filter (App.visible filters)
      (map (fun a => if includes ids (id a)
                     then App.set_selected b a else a) prev)
    = map (App.set_selected b) (List.filter (App.visible filters) prev).
Proof.
  induction prev as [ | a prev IH]; intros Hids; [reflexivity |].
  cbn [map List.filter].
  assert (Hrec := IH (fun x Hx => Hids x (or_intror Hx))).
  destruct (App.visible filters a) eqn:Hv.
  - rewrite (Hids a (or_introl eq_refl) Hv), visible_set_selected, Hv.
    cbn [map]. by rewrite Hrec.
  - destruct (includes ids (id a)).
    + by rewrite visible_set_selected, Hv.
    + by rewrite Hv.
Qed.

Lemma forallb_set_selected (b : bool) (l : list Article) :
  l <> [] -> forallb selected (map (App.set_selected b) l) = b.
Proof.
  induction l as [ | a [ | a' l] IH]; [done | | ]; intros _.
  - simpl. by rewrite andb_true_r.
  - cbn [map forallb] in *. rewrite IH by done. cbn [App.set_selected selected].
    by destruct b.
Qed.

(** X26.  [handleSelectAll], applied to the list that the view was
    filtered from, keeps the records and their order and gives every
    shown record the same [selected] flag: [false] when all shown records
    were selected, [true] otherwise.  The shown records stay the shown
    ones; a record whose id is not the id of a shown record is left as it
    was (a hidden record that shares its id with a shown one is changed
    too).  With at least one record shown, a second call undoes what
    "all selected" says. *)
Theorem X26_select_all_sets_every_shown_record
  (filters : App.FilterConfig) (prev : list Article) :
  map id (App.handleSelectAll (App.filteredArticles filters prev) prev)
  = map id prev
  /\ App.filteredArticles filters
       (App.handleSelectAll (App.filteredArticles filters prev) prev)
     = map (App.set_selected
              (negb (forallb selected (App.filteredArticles filters prev))))
         (App.filteredArticles filters prev)
  /\ (forall a,
        In a prev ->
        ~ In (id a) (map id (App.filteredArticles filters prev)) ->
        In a (App.handleSelectAll (App.filteredArticles filters prev) prev))
  /\ (App.filteredArticles filters prev <> [] ->
      forallb selected
        (App.filteredArticles filters
           (App.handleSelectAll (App.filteredArticles filters prev) prev))
      = negb (forallb selected (App.filteredArticles filters prev))).
Proof.
  unfold App.handleSelectAll. cbv zeta.
  set (shown := App.filteredArticles filters prev).
  set (b := negb (forallb selected shown)).
  assert (Hids : forall x, includes (new_Set (map id shown)) x = true
                           <-> In x (map id shown)).
  { intros x. rewrite includes_In.
    apply (proj2 (new_Set_spec (map id shown))). }
  assert (Hfilter :
    App.filteredArticles filters
      (map (fun a => if includes (new_Set (map id shown)) (id a)
                     then App.set_selected b a else a) prev)
    = map (App.set_selected b) shown).
  { unfold App.filteredArticles. apply filter_select.
    intros a Ha Hv. apply Hids, in_map, filter_In. by split. }
  split; [ | split; [exact Hfilter | split]].
  - rewrite map_map. apply map_ext. intros a. cbv beta.
    by destruct (includes _ (id a)).
  - intros a Ha Hno. apply in_map_iff. exists a. split; [ | exact Ha].
    cbv beta.
    destruct (includes (new_Set (map id shown)) (id a)) eqn:Hinc;
      [ | reflexivity].
    by apply Hids in Hinc.
  - intros Hne. rewrite Hfilter. by apply forallb_set_selected.
Qed.

Lemma existsb_id (i : string) (l : list Article) :
  existsb (fun a => String.eqb (id a) i) l = true <-> In i (map id l).
Proof.
  rewrite existsb_exists, in_map_iff. split.
  - intros (a & Ha & Heq%String.eqb_eq). eauto.
  - intros (a & <- & Ha). exists a. split; [exact Ha | apply String.eqb_refl].
Qed.

Lemma filter_other_ids (i : string) (l : list Article) :
  ~ In i (map id l) ->
  List.filter (fun a => negb (String.eqb (id a) i)) l = l.
Proof.
  induction l as [ | a l IH]; [reflexivity |]. cbn [map In List.filter].
  intros Hno. destruct (String.eqb_spec (id a) i) as [Heq | _]; [tauto |].
  cbn [negb]. rewrite IH; [reflexivity | tauto].
Qed.

(** X27.  [toggleBookmark], applied to the saved list that it tested,
    flips the membership of the id of the record: the id is among the
    saved ids afterwards exactly when it was not before (removing takes
    away every saved record with that id).  The saved records with
    another id are kept, distinct ids stay distinct, and bookmarking a
    record that was not saved and toggling it again gives back the saved
    list. *)
Theorem X27_a_bookmark_is_added_or_removed_by_id
  (article : Article) (saved : list Article) :
  (In (id article) (map id (App.toggleBookmark article saved saved))
   <-> ~ In (id article) (map id saved))
  /\ (forall a, id a <> id article ->
        In a (App.toggleBookmark article saved saved) <-> In a saved)
  /\ (NoDup (map id saved) ->
      NoDup (map id (App.toggleBookmark article saved saved)))
  /\ (~ In (id article) (map id saved) ->
      App.toggleBookmark article
        (App.toggleBookmark article saved saved)
        (App.toggleBookmark article saved saved) = saved).
Proof.
  unfold App.toggleBookmark.
  destruct (existsb _ saved) eqn:Hex.
  - apply existsb_id in Hex. split; [ | split; [ | split]].
    + split; [ | tauto].
      intros (a & Hid & Ha)%in_map_iff. apply filter_In in Ha as [_ Ha].
      rewrite Hid, String.eqb_refl in Ha. discriminate.
    + intros a Ha. rewrite filter_In.
      destruct (String.eqb_spec (id a) (id article)); [done |]. tauto.
    + intros Hnd. eapply sublist_NoDup; [exact Hnd |].
      apply (fmap_sublist id), filter_sublist.
    + tauto.
  - assert (Hno : ~ In (id article) (map id saved)).
    { intros H. apply existsb_id in H. congruence. }
    split; [ | split; [ | split]].
    + split; [tauto |]. intros _. rewrite map_app, in_app_iff.
      right. by left.
    + intros a Ha. rewrite in_app_iff. cbn [In]. split; [ | tauto].
      intros [? | [<- | []]]; [done |]. by destruct Ha.
    + intros Hnd. rewrite map_app. apply NoDup_app.
      split; [exact Hnd |]. split; [ | apply NoDup_singleton].
      intros x Hx ->%list_elem_of_singleton. by apply list_elem_of_In in Hx.
    + intros _.
      assert (Hthen : existsb (fun a => String.eqb (id a) (id article))
                        (saved ++ [App.set_selected false article]) = true).
      { apply existsb_id. rewrite map_app, in_app_iff. right. by left. }
      rewrite Hthen, List.filter_app, filter_other_ids by exact Hno.
      cbn [List.filter App.set_selected id].
      rewrite String.eqb_refl. apply app_nil_r.
Qed.

(** X28.  [handleToggleSelect] keeps the records and their order, changes
    nothing but the [selected] flag of the records with the given id
    (all of them, when several records share the id), and undoes itself:
    toggling the same id twice gives back the list. *)
Theorem X28_toggling_a_selection_twice_restores_it
  (i : string) (prev : list Article) :
  map id (App.handleToggleSelect i prev) = map id prev
  /\ Forall2
       (fun a a' =>
          a' = App.set_selected
                 (if String.eqb (id a) i then negb (selected a)
                  else selected a) a)
       prev (App.handleToggleSelect i prev)
  /\ App.handleToggleSelect i (App.handleToggleSelect i prev) = prev.
Proof.
  unfold App.handleToggleSelect. split; [ | split].
  - rewrite map_map. apply map_ext. intros a. cbv beta.
    by destruct (String.eqb (id a) i).
  - induction prev as [ | a prev IH]; cbn [map]; constructor; [ | exact IH].
    destruct (String.eqb (id a) i); [reflexivity | by destruct a].
  - rewrite map_map. rewrite <- (map_id prev) at 2.
    apply map_ext. intros a.
    destruct (String.eqb (id a) i) eqn:Hi.
    + cbn [App.set_selected id]. rewrite Hi.
      destruct a. cbn. by rewrite negb_involutive.
    + by rewrite Hi.
Qed.
